(** * ase.py: AwsSecurityEnumerator, a multi-account wrapper over boto

    A shallow embedding of [src/ase.py].  The Python class holds a
    configuration dictionary and exposes enumeration methods; every method
    resolves credentials from the configuration, fans out over the regions
    boto reports, and flattens the per-region lists.

    - Python [str] values are byte strings ([string]); [str.lower] is the
      ASCII lower-casing of the C locale (the module targets Python 2 with
      boto 2.38).
    - Python dictionaries read with [d[k]] are [gmap string _]; a missing
      key raises [KeyError].
    - boto is an external collaborator: it is taken as an interface
      ([boto.Sdk]) whose calls act on an abstract world, may raise, and are
      recorded in a call log.
    - Exceptions are values: a method is a function from a state to a
      result-or-exception and the next state. *)

From Stdlib Require Import String Ascii List Bool Arith Lia.
From stdpp Require Import base option list gmap strings.

Local Open Scope string_scope.
Local Open Scope list_scope.

(** ** Python strings *)

(** [str.lower()] on one byte: 'A'..'Z' (65..90) move to 'a'..'z'. *)
Definition lower_ascii (c : ascii) : ascii :=
  let n := nat_of_ascii c in
  if ((65 <=? n)%nat && (n <=? 90)%nat)%bool then ascii_of_nat (n + 32) else c.

Fixpoint lower (s : string) : string :=
  match s with
  | EmptyString => EmptyString
  | String c s' => String (lower_ascii c) (lower s')
  end.

(** [sub in s] for two [str]: [sub] occurs in [s] as a contiguous run. *)
Fixpoint contains (sub s : string) : bool :=
  String.prefix sub s
  || match s with
     | EmptyString => false
     | String _ s' => contains sub s'
     end.

(** ** Exceptions *)

Section Exceptions.
Context {SdkExn : Type}.

Inductive exn : Type :=
| ASEException (msg : string)
| KeyError (key : string)
| AttributeError (attr : string)
| SdkError (e : SdkExn).

End Exceptions.
Arguments exn : clear implicits.

(** ** The objects boto hands back *)

Module RegionInfo.
Record t : Type := { name : string }.
End RegionInfo.

Module Instance.
Record t : Type :=
  { id : string;
    tags : gmap string string;
    region : RegionInfo.t }.
End Instance.

Module Reservation.
Record t : Type := { instances : list Instance.t }.
End Reservation.

Module Event.
Record t : Type :=
  { code : string;
    description : string;
    not_before : string;
    not_after : string }.
End Event.

Module InstanceStatus.
(** [events] is [None] in the normal case, else the list of pending events. *)
Record t : Type :=
  { id : string;
    events : option (list Event.t) }.
End InstanceStatus.

(** The dictionary [get_all_instance_events] builds for each event. *)
Module MaintenanceEvent.
Record t : Type :=
  { instance_id : string;
    completed : bool;
    event_code : string;
    descript : string;
    time_nb4 : string;
    time_nafter : string;
    tags : gmap string string;
    account : string;
    region : string }.
End MaintenanceEvent.

(** ** boto *)

Module boto.

(** The calls [ase.py] makes into boto.  Each acts on the world, and either
    returns or raises.  [elb_connect_to_region] is
    [boto.ec2.elb.connect_to_region], which returns [None] for a region name
    it does not know. *)
Class Sdk : Type :=
  { World : Type;
    SdkExn : Type;
    EC2Connection : Type;
    ELBConnection : Type;
    LoadBalancer : Type;
    SecurityGroup : Type;
    connect_ec2 :
      string -> string -> World -> (SdkExn + EC2Connection) * World;
    get_all_regions :
      EC2Connection -> World -> (SdkExn + list RegionInfo.t) * World;
    region_connect :
      RegionInfo.t -> string -> string -> World ->
      (SdkExn + EC2Connection) * World;
    get_all_reservations :
      EC2Connection -> World -> (SdkExn + list Reservation.t) * World;
    get_all_instance_status :
      EC2Connection -> World -> (SdkExn + list InstanceStatus.t) * World;
    get_all_security_groups :
      EC2Connection -> World -> (SdkExn + list SecurityGroup) * World;
    elb_connect_to_region :
      string -> string -> string -> World ->
      (SdkExn + option ELBConnection) * World;
    get_all_load_balancers :
      ELBConnection -> World -> (SdkExn + list LoadBalancer) * World }.

(** Which boto entry point a logged call went to. *)
Inductive op : Type :=
| ConnectEc2
| GetAllRegions
| RegionConnect
| GetAllReservations
| GetAllInstanceStatus
| GetAllSecurityGroups
| ElbConnectToRegion
| GetAllLoadBalancers.

Inductive outcome : Type := Returned | Raised.

#[global] Instance op_eq_dec : EqDecision op.
Proof. solve_decision. Defined.

End boto.

(** ** Results, states and the method monad *)

Section Monad.
Context {sdk : boto.Sdk}.

Definition pyexn : Type := exn boto.SdkExn.

(** Pure Python code: a value or a raised exception. *)
Definition res (A : Type) : Type := pyexn + A.

Record state : Type :=
  { world : boto.World;
    calls : list (boto.op * boto.outcome) }.

(** Code that may call boto. *)
Definition M (A : Type) : Type := state -> res A * state.

Definition ret {A} (a : A) : M A := fun s => (inr a, s).

Definition raise {A} (e : pyexn) : M A := fun s => (inl e, s).

Definition bind {A B} (m : M A) (k : A -> M B) : M B :=
  fun s =>
    match m s with
    | (inr a, s') => k a s'
    | (inl e, s') => (inl e, s')
    end.

Definition lift {A} (r : res A) : M A := fun s => (r, s).

(** [try: m  except: raise ASEException(msg)] *)
Definition try_except {A} (m : M A) (msg : string) : M A :=
  fun s =>
    match m s with
    | (inr a, s') => (inr a, s')
    | (inl _, s') => (inl (ASEException msg), s')
    end.

(** One call into boto: run it on the world and log it. *)
Definition call {A} (o : boto.op)
    (f : boto.World -> (boto.SdkExn + A) * boto.World) : M A :=
  fun s =>
    match f (world s) with
    | (inr a, w) =>
        (inr a, {| world := w; calls := calls s ++ [(o, boto.Returned)] |})
    | (inl e, w) =>
        (inl (SdkError e),
         {| world := w; calls := calls s ++ [(o, boto.Raised)] |})
    end.

(** [for x in xs: body], threading the variables the body assigns. *)
Fixpoint for_each {A B} (xs : list A) (body : B -> A -> M B) (acc : B)
    : M B :=
  match xs with
  | [] => ret acc
  | x :: xs' => bind (body acc x) (for_each xs' body)
  end.

End Monad.

Notation "x <- m ;; k" := (bind m (fun x => k))
  (at level 100, m at next level, right associativity,
   format "'[v' x  <-  m  ;; '/' k ']'").

(** The same for pure code. *)
Definition rbind {E A B} (r : E + A) (k : A -> E + B) : E + B :=
  match r with
  | inr a => k a
  | inl e => inl e
  end.

Notation "x <~ r ;; k" := (rbind r (fun x => k))
  (at level 100, r at next level, right associativity,
   format "'[v' x  <~  r  ;; '/' k ']'").

(** [d[k]] *)
Definition getitem {E V} (d : gmap string V) (k : string) : exn E + V :=
  match d !! k with
  | Some v => inr v
  | None => inl (KeyError k)
  end.

(** [for x in xs: body] in pure code. *)
Fixpoint rfor_each {E A B} (xs : list A) (body : B -> A -> E + B) (acc : B)
    : E + B :=
  match xs with
  | [] => inr acc
  | x :: xs' => rbind (body acc x) (rfor_each xs' body)
  end.

(** What the local variable [instance] of [get_all_instance_events] holds:
    the string it is initialised with, or an instance object. *)
Inductive instance_var : Type :=
| Str (s : string)
| Inst (i : Instance.t).

(** [instance.tags]: a [str] has no such attribute. *)
Definition getattr_tags {E} (v : instance_var) : exn E + gmap string string :=
  match v with
  | Inst i => inr (Instance.tags i)
  | Str _ => inl (AttributeError "tags")
  end.

(** [instance.region] *)
Definition getattr_region {E} (v : instance_var) : exn E + RegionInfo.t :=
  match v with
  | Inst i => inr (Instance.region i)
  | Str _ => inl (AttributeError "region")
  end.

(** Truth value of [s.events]: [None] and the empty list are false. *)
Definition truthy {A} (o : option (list A)) : bool :=
  match o with
  | None | Some [] => false
  | Some (_ :: _) => true
  end.

(** ** class AwsSecurityEnumerator *)

Section AwsSecurityEnumerator.
Context {sdk : boto.Sdk}.

(** [self.config] *)
Variable config : gmap string (list (gmap string string)).

Definition get_all_aws_accounts : M (list (gmap string string)) :=
  lift (getitem config "aws_accounts").

(** The [for account in accounts] loop of [get_account_api_creds] and the
    [raise] that follows it. *)
Fixpoint scan_accounts (accounts : list (gmap string string))
    (account_name : string) : res (gmap string string) :=
  match accounts with
  | [] => inl (ASEException "Cannot obtain credentials for specified account")
  | account :: rest =>
      name <~ getitem account "name" ;;
      if String.eqb name (lower account_name) then
        key <~ getitem account "key" ;;
        secret <~ getitem account "secret" ;;
        inr {[ "access_key" := key; "secret_key" := secret ]}
      else scan_accounts rest account_name
  end.

Definition get_account_api_creds (account_name : string)
    : M (gmap string string) :=
  lift (accounts <~ getitem config "aws_accounts" ;;
        scan_accounts accounts account_name).

Definition __ec2_connect_all_regions (account_name : string)
    : M (list boto.EC2Connection) :=
  creds <- get_account_api_creds account_name ;;
  access_key <- lift (getitem creds "access_key") ;;
  secret_key <- lift (getitem creds "secret_key") ;;
  try_except
    (ec2 <- call boto.ConnectEc2 (boto.connect_ec2 access_key secret_key) ;;
     regions <- call boto.GetAllRegions (boto.get_all_regions ec2) ;;
     for_each regions
       (fun ec2s region =>
          ec2 <- call boto.RegionConnect
                   (boto.region_connect region access_key secret_key) ;;
          ret (ec2s ++ [ec2]))
       [])
    "Cannot connect to ec2 region".

(** [for x in xs: l.append(x)] *)
Definition append_all {A} (l xs : list A) : list A :=
  fold_left (fun l x => l ++ [x]) xs l.

Definition get_instances_for_account (account_name : string)
    : M (list Instance.t) :=
  try_except
    (ec2s <- __ec2_connect_all_regions account_name ;;
     res_list <- for_each ec2s
       (fun res_list ec2 =>
          reservations <- call boto.GetAllReservations
                            (boto.get_all_reservations ec2) ;;
          ret (append_all res_list reservations))
       [] ;;
     ret (flat_map Reservation.instances res_list))
    "Cannot get instances for named account".

(** [[i['name'] for i in accounts]] *)
Fixpoint names_of (accounts : list (gmap string string)) : res (list string) :=
  match accounts with
  | [] => inr []
  | i :: rest =>
      n <~ getitem i "name" ;;
      ns <~ names_of rest ;;
      inr (n :: ns)
  end.

(** The body shared by the three "all accounts" methods:
    [results = []; accounts = [...]; for a in accounts: results += f(a)]. *)
Definition over_all_accounts {A} (f : string -> M (list A)) : M (list A) :=
  all <- get_all_aws_accounts ;;
  accounts <- lift (names_of all) ;;
  for_each accounts (fun results a => r <- f a ;; ret (results ++ r)) [].

Definition get_all_instances : M (list Instance.t) :=
  try_except (over_all_accounts get_instances_for_account)
    "Cannot get all instances".

Definition get_elbs_for_account (account_name : string)
    : M (list boto.LoadBalancer) :=
  creds <- get_account_api_creds account_name ;;
  access_key <- lift (getitem creds "access_key") ;;
  secret_key <- lift (getitem creds "secret_key") ;;
  ec2 <- call boto.ConnectEc2 (boto.connect_ec2 access_key secret_key) ;;
  regions <- call boto.GetAllRegions (boto.get_all_regions ec2) ;;
  try_except
    (for_each regions
       (fun elb_hosts region =>
          elb <- call boto.ElbConnectToRegion
                   (boto.elb_connect_to_region (RegionInfo.name region)
                      access_key secret_key) ;;
          match elb with
          | None => raise (AttributeError "get_all_load_balancers")
          | Some elb =>
              lbs <- call boto.GetAllLoadBalancers
                       (boto.get_all_load_balancers elb) ;;
              ret (append_all elb_hosts lbs)
          end)
       [])
    "Cannot get ELBs for named account".

Definition get_all_elbs : M (list boto.LoadBalancer) :=
  try_except (over_all_accounts get_elbs_for_account) "Cannot get all ELBs".

Definition __get_all_instance_status (account_name : string)
    : M (list InstanceStatus.t) :=
  try_except
    (ec2s <- __ec2_connect_all_regions account_name ;;
     for_each ec2s
       (fun i_status e =>
          l <- call boto.GetAllInstanceStatus
                 (boto.get_all_instance_status e) ;;
          ret (append_all i_status l))
       [])
    "Cannot obtain instance status".

(** The [for i in instances] loop: every instance whose id equals the
    status entry's id is assigned to [instance] in turn. *)
Definition find_instance (instances : list Instance.t) (s : InstanceStatus.t)
    : instance_var :=
  fold_left
    (fun instance i =>
       if String.eqb (Instance.id i) (InstanceStatus.id s) then Inst i
       else instance)
    instances (Str "").

(** One pass of [for event in s.events]: the dictionary appended to
    [non_ok]. *)
Definition event_record (account_name : string) (instances : list Instance.t)
    (s : InstanceStatus.t) (event : Event.t) : res MaintenanceEvent.t :=
  let instance := find_instance instances s in
  let completed :=
    if contains "[Completed]" (Event.description event) then true else false in
  tags <~ getattr_tags instance ;;
  region <~ getattr_region instance ;;
  inr {| MaintenanceEvent.instance_id := InstanceStatus.id s;
         MaintenanceEvent.completed := completed;
         MaintenanceEvent.event_code := Event.code event;
         MaintenanceEvent.descript := Event.description event;
         MaintenanceEvent.time_nb4 := Event.not_before event;
         MaintenanceEvent.time_nafter := Event.not_after event;
         MaintenanceEvent.tags := tags;
         MaintenanceEvent.account := account_name;
         MaintenanceEvent.region := RegionInfo.name region |}.

(** The [for s in status_list] loop. *)
Definition non_ok_events (account_name : string)
    (status_list : list InstanceStatus.t) (instances : list Instance.t)
    : res (list MaintenanceEvent.t) :=
  rfor_each status_list
    (fun non_ok s =>
       if truthy (InstanceStatus.events s) then
         rfor_each (default [] (InstanceStatus.events s))
           (fun non_ok event =>
              d <~ event_record account_name instances s event ;;
              inr (non_ok ++ [d]))
           non_ok
       else inr non_ok)
    [].

Definition get_all_instance_events (account_name : string)
    : M (list MaintenanceEvent.t) :=
  status_list <- __get_all_instance_status account_name ;;
  instances <- get_instances_for_account account_name ;;
  try_except (lift (non_ok_events account_name status_list instances))
    "Cannot get instance maintenance events".

Definition get_security_groups (account_name : string)
    : M (list boto.SecurityGroup) :=
  ec2s <- __ec2_connect_all_regions account_name ;;
  try_except
    (for_each ec2s
       (fun sgroups e =>
          l <- call boto.GetAllSecurityGroups
                 (boto.get_all_security_groups e) ;;
          ret (append_all sgroups l))
       [])
    "Cannot get security groups for named account".

Definition get_all_security_groups : M (list boto.SecurityGroup) :=
  try_except (over_all_accounts get_security_groups)
    "Cannot get all security groups".

End AwsSecurityEnumerator.

(** ** A scripted boto, for running the methods on concrete inputs

    Connections are named by their region; the world counts the calls made;
    a [plan] says which regions exist, which call raises on which region,
    and what each region holds. *)

Module Mock.

Record plan : Type :=
  { regions : list string;
    raises : boto.op -> string -> bool;
    reservations : string -> list Reservation.t;
    statuses : string -> list InstanceStatus.t }.

(** A call [o] on region [r]: it raises if the plan says so, else returns
    [a]; either way the world has seen one more call. *)
Definition answer {A} (p : plan) (o : boto.op) (r : string) (a : A)
    (w : nat) : (string + A) * nat :=
  if raises p o r then (inl "boto.exception", S w) else (inr a, S w).

Definition sdk (p : plan) : boto.Sdk :=
  {| boto.World := nat;
     boto.SdkExn := string;
     boto.EC2Connection := string;
     boto.ELBConnection := string;
     boto.LoadBalancer := string;
     boto.SecurityGroup := string;
     boto.connect_ec2 := fun _ _ => answer p boto.ConnectEc2 "" "";
     boto.get_all_regions := fun c =>
       answer p boto.GetAllRegions c (map RegionInfo.Build_t (regions p));
     boto.region_connect := fun r _ _ =>
       answer p boto.RegionConnect (RegionInfo.name r) (RegionInfo.name r);
     boto.get_all_reservations := fun c =>
       answer p boto.GetAllReservations c (reservations p c);
     boto.get_all_instance_status := fun c =>
       answer p boto.GetAllInstanceStatus c (statuses p c);
     boto.get_all_security_groups := fun c =>
       answer p boto.GetAllSecurityGroups c [String.append "sg-" c];
     boto.elb_connect_to_region := fun n _ _ =>
       answer p boto.ElbConnectToRegion n (Some n);
     boto.get_all_load_balancers := fun c =>
       answer p boto.GetAllLoadBalancers c [String.append "lb-" c] |}.

(** Before any call. *)
Definition start (p : plan) : @state (sdk p) :=
  @Build_state (sdk p) 0 [].

Definition never : boto.op -> string -> bool := fun _ _ => false.

(** Only the call [o] on region [r] raises. *)
Definition only (o : boto.op) (r : string) : boto.op -> string -> bool :=
  fun o' r' => bool_decide (o' = o) && String.eqb r' r.

Definition east : RegionInfo.t := {| RegionInfo.name := "us-east-1" |}.

Definition west : RegionInfo.t := {| RegionInfo.name := "us-west-2" |}.

Definition web : Instance.t :=
  {| Instance.id := "i-1";
     Instance.tags := {[ "Name" := "web" ]};
     Instance.region := east |}.

Definition db : Instance.t :=
  {| Instance.id := "i-2";
     Instance.tags := {[ "Name" := "db" ]};
     Instance.region := west |}.

(** A second instance reported under the id of [web]. *)
Definition web_again : Instance.t :=
  {| Instance.id := "i-1";
     Instance.tags := {[ "Name" := "web-again" ]};
     Instance.region := west |}.

Definition reboot : Event.t :=
  {| Event.code := "system-reboot";
     Event.description := "[Completed] scheduled reboot";
     Event.not_before := "2015-06-01T00:00:00.000Z";
     Event.not_after := "2015-06-01T02:00:00.000Z" |}.

Definition retirement : Event.t :=
  {| Event.code := "instance-retirement";
     Event.description := "The instance is running on degraded hardware";
     Event.not_before := "2015-06-09T00:00:00.000Z";
     Event.not_after := "2015-06-10T00:00:00.000Z" |}.

(** The status entry of instance [id], with two events. *)
Definition two_events (id : string) : InstanceStatus.t :=
  {| InstanceStatus.id := id;
     InstanceStatus.events := Some [reboot; retirement] |}.

(** Three regions: [web] runs in the first, [in_west] in the second, the
    third is empty; the first region reports the status entry [status]. *)
Definition fleet (raises : boto.op -> string -> bool) (in_west : Instance.t)
    (status : InstanceStatus.t) : plan :=
  {| regions := ["us-east-1"; "us-west-2"; "eu-west-1"];
     raises := raises;
     reservations := fun r =>
       if String.eqb r "us-east-1" then [ {| Reservation.instances := [web] |} ]
       else if String.eqb r "us-west-2" then
         [ {| Reservation.instances := [in_west] |} ]
       else [];
     statuses := fun r =>
       if String.eqb r "us-east-1" then [status] else [] |}.

(** Nothing raises. *)
Definition healthy : plan := fleet never db (two_events "i-1").

(** The reservation listing of the second region raises. *)
Definition west_listing_fails : plan :=
  fleet (only boto.GetAllReservations "us-west-2") db (two_events "i-1").

(** [boto.connect_ec2] raises. *)
Definition connect_fails : plan :=
  fleet (only boto.ConnectEc2 "") db (two_events "i-1").

(** Two instances carry the id ["i-1"]. *)
Definition duplicate_id : plan := fleet never web_again (two_events "i-1").

(** The status entry names an instance that is not listed. *)
Definition orphan_status : plan := fleet never db (two_events "i-9").

(** One account, stored as ["prod"]. *)
Definition prod : gmap string (list (gmap string string)) :=
  {[ "aws_accounts" :=
       [ {[ "name" := "prod"; "key" := "K"; "secret" := "S" ]} ] ]}.

(** The same account, stored as ["Prod"]. *)
Definition stored_Prod : gmap string (list (gmap string string)) :=
  {[ "aws_accounts" :=
       [ {[ "name" := "Prod"; "key" := "K"; "secret" := "S" ]} ] ]}.

(** Two accounts. *)
Definition prod_and_dev : gmap string (list (gmap string string)) :=
  {[ "aws_accounts" :=
       [ {[ "name" := "prod"; "key" := "K"; "secret" := "S" ]};
         {[ "name" := "dev"; "key" := "K2"; "secret" := "S2" ]} ] ]}.

(** The dictionary for [event] of status entry [id] when the scan ended on
    instance [i]. *)
Definition expected (id : string) (event : Event.t) (i : Instance.t)
    : MaintenanceEvent.t :=
  {| MaintenanceEvent.instance_id := id;
     MaintenanceEvent.completed :=
       contains "[Completed]" (Event.description event);
     MaintenanceEvent.event_code := Event.code event;
     MaintenanceEvent.descript := Event.description event;
     MaintenanceEvent.time_nb4 := Event.not_before event;
     MaintenanceEvent.time_nafter := Event.not_after event;
     MaintenanceEvent.tags := Instance.tags i;
     MaintenanceEvent.account := "prod";
     MaintenanceEvent.region := RegionInfo.name (Instance.region i) |}.

End Mock.

(** * Vocabulary of the properties

    What the statements below speak about: the entries a run adds to the
    call log, the postconditions used to reason about them, runs over all
    accounts, and the pairing of status entries with instances. *)

Section Vocabulary.
Context {sdk : boto.Sdk}.

Abbreviation entry := (boto.op * boto.outcome)%type.

(** The entries a run of [m] from [s] appends to the log. *)
Definition new_calls {A} (m : M A) (s : state) : list entry :=
  drop (length (calls s)) (calls (snd (m s))).

(** [logs m Q]: from any state, [m] extends the call log by some entries
    [new], and [Q new r] holds of them and of the result [r]. *)
Definition logs {A} (m : M A) (Q : list entry -> res A -> Prop) : Prop :=
  forall s, exists new, calls (snd (m s)) = calls s ++ new /\ Q new (fst (m s)).

(** The logged call did not raise. *)
Definition returned (c : entry) : Prop := snd c = boto.Returned.

(** The new entries are calls to entry points in [P], and if the result is
    a value none of them raised. *)
Definition sound_post {A} (P : boto.op -> Prop) (new : list entry)
    (r : res A) : Prop :=
  Forall (fun c => P (fst c)) new /\
  (forall a, r = inr a -> Forall returned new).

(** [sound P m]: [m] calls only entry points in [P], and when it returns a
    value no call it made has raised. *)
Definition sound {A} (P : boto.op -> Prop) (m : M A) : Prop :=
  logs m (sound_post P).

(** What a [try: ... except: raise ASEException(msg)] around a sound body
    adds: a value and no raised call, or the one message. *)
Definition wrapped_post {A} (P : boto.op -> Prop) (msg : string)
    (new : list entry) (r : res A) : Prop :=
  Forall (fun c => P (fst c)) new /\
  (forall a, r = inr a -> Forall returned new) /\
  (forall e, r = inl e -> e = ASEException msg).

(** [raise_post P msg]: if a call to an entry point in [P] raised, the
    caller sees [ASEException(msg)]. *)
Definition raise_post {A} (P : boto.op -> Prop) (msg : string)
    (new : list entry) (r : res A) : Prop :=
  forall o, P o -> In (o, boto.Raised) new -> r = inl (ASEException msg).

(** Any entry point. *)
Definition any_op : boto.op -> Prop := fun _ => True.

(** The entry points [__ec2_connect_all_regions] goes through. *)
Definition connect_op (o : boto.op) : Prop :=
  o = boto.ConnectEc2 \/ o = boto.GetAllRegions \/ o = boto.RegionConnect.

(** The entry points of the per-region loop of [get_elbs_for_account]. *)
Definition elb_loop_op (o : boto.op) : Prop :=
  o = boto.ElbConnectToRegion \/ o = boto.GetAllLoadBalancers.

(** What [__ec2_connect_all_regions] adds to the log: calls to its three
    entry points; none raised if it returns; and once it has called boto,
    its one message. *)
Definition connect_post {A} (new : list (boto.op * boto.outcome))
    (r : res A) : Prop :=
  Forall (fun c => connect_op (fst c)) new /\
  (forall a, r = inr a -> Forall returned new) /\
  (forall e, r = inl e -> new <> [] ->
             e = ASEException "Cannot connect to ec2 region").

(** The entry point of the per-region loop of [get_security_groups]. *)
Definition sg_op (o : boto.op) : Prop := o = boto.GetAllSecurityGroups.

(** A call to an entry point in [P] raised while [m] ran from [s]. *)
Definition boto_raised {A} (P : boto.op -> Prop) (m : M A) (s : state)
    : Prop :=
  exists o, P o /\ In (o, boto.Raised) (new_calls m s).

(** The caller of [m] sees [ASEException(msg)]. *)
Definition raises_ASE {A} (m : M A) (s : state) (msg : string) : Prop :=
  fst (m s) = inl (ASEException msg).

(** [runs_in_order f names s rs s']: running [f] on each name in turn from
    [s] returns the values [rs], one per name, and ends in [s']. *)
Inductive runs_in_order {A} (f : string -> M A)
    : list string -> state -> list A -> state -> Prop :=
| runs_nil s : runs_in_order f [] s [] s
| runs_cons a names s r s1 rs s' :
    f a s = (inr r, s1) ->
    runs_in_order f names s1 rs s' ->
    runs_in_order f (a :: names) s (r :: rs) s'.

(** The (status entry, event) pairs of a status list, in loop order. *)
Fixpoint pending (status_list : list InstanceStatus.t)
    : list (InstanceStatus.t * Event.t) :=
  match status_list with
  | [] => []
  | s :: rest =>
      map (pair s) (default [] (InstanceStatus.events s)) ++ pending rest
  end.

(** [i] is the last instance of the list whose id is that of [s]. *)
Definition last_match (instances : list Instance.t) (s : InstanceStatus.t)
    (i : Instance.t) : Prop :=
  exists pre post,
    instances = pre ++ i :: post /\
    Instance.id i = InstanceStatus.id s /\
    Forall (fun j => Instance.id j <> InstanceStatus.id s) post.

(** No instance of the list has the id of [s]. *)
Definition no_match (instances : list Instance.t) (s : InstanceStatus.t)
    : Prop :=
  Forall (fun j => Instance.id j <> InstanceStatus.id s) instances.

(** Every status entry that carries events has an instance with its id. *)
Definition all_matched (instances : list Instance.t)
    (status_list : list InstanceStatus.t) : Prop :=
  Forall
    (fun s =>
       truthy (InstanceStatus.events s) = true ->
       Exists (fun i => Instance.id i = InstanceStatus.id s) instances)
    status_list.

End Vocabulary.

(** * The rest of the module *)

(** ** [repr] of a [str], and [ASEException.__str__]

    CPython 2 writes the string between single quotes, or between double
    quotes when it holds a single quote and no double quote; the chosen
    quote and the backslash are escaped with a backslash, tab, newline and
    carriage return become [\t], [\n], [\r], and any other byte outside
    32..126 becomes [\xhh] in lower-case hexadecimal. *)

Definition single_quote : ascii := ascii_of_nat 39.

Definition double_quote : ascii := ascii_of_nat 34.

Definition backslash : ascii := ascii_of_nat 92.

Fixpoint has_char (c : ascii) (s : string) : bool :=
  match s with
  | EmptyString => false
  | String c' s' => Ascii.eqb c' c || has_char c s'
  end.

Definition hex_digit (n : nat) : ascii :=
  if (n <? 10)%nat then ascii_of_nat (48 + n) else ascii_of_nat (87 + n).

Definition repr_char (quote c : ascii) : string :=
  let n := nat_of_ascii c in
  if Ascii.eqb c quote || Ascii.eqb c backslash then
    String backslash (String c EmptyString)
  else if (n =? 9)%nat then String backslash "t"
  else if (n =? 10)%nat then String backslash "n"
  else if (n =? 13)%nat then String backslash "r"
  else if ((n <? 32)%nat || (127 <=? n)%nat)%bool then
    String backslash
      (String "x"
         (String (hex_digit (n / 16))
            (String (hex_digit (n mod 16)) EmptyString)))
  else String c EmptyString.

Fixpoint repr_chars (quote : ascii) (s : string) : string :=
  match s with
  | EmptyString => EmptyString
  | String c s' => String.append (repr_char quote c) (repr_chars quote s')
  end.

Definition repr (s : string) : string :=
  let quote :=
    if has_char single_quote s && negb (has_char double_quote s)
    then double_quote else single_quote in
  String quote (String.append (repr_chars quote s) (String quote EmptyString)).

(** [ASEException.__str__]: [repr(self.msg)]. *)
Definition __str__ (msg : string) : string := repr msg.

(** A printable ASCII character other than the single quote and the
    backslash. *)
Definition plain_char (c : ascii) : bool :=
  let n := nat_of_ascii c in
  ((32 <=? n)%nat && (n <? 127)%nat && negb (n =? 39)%nat
   && negb (n =? 92)%nat)%bool.

Fixpoint plain (s : string) : bool :=
  match s with
  | EmptyString => true
  | String c s' => plain_char c && plain s'
  end.

(** ** More vocabulary *)

Section Fanout.
Context {sdk : boto.Sdk}.

(** [each_in_order f xs s rs s']: running [f] on each element in turn from
    [s] returns the values [rs], one per element, and ends in [s']. *)
Inductive each_in_order {X A} (f : X -> M A)
    : list X -> state -> list A -> state -> Prop :=
| each_nil s : each_in_order f [] s [] s
| each_cons x xs s r s1 rs s' :
    f x s = (inr r, s1) ->
    each_in_order f xs s1 rs s' ->
    each_in_order f (x :: xs) s (r :: rs) s'.

(** The log of one fan-out over [n] regions, every call returning: connect,
    list the regions, connect to each, then call [o] on each. *)
Definition fan_out (o : boto.op) (n : nat) : list (boto.op * boto.outcome) :=
  (boto.ConnectEc2, boto.Returned) :: (boto.GetAllRegions, boto.Returned)
  :: repeat (boto.RegionConnect, boto.Returned) n
  ++ repeat (o, boto.Returned) n.

(** One pass of the loop of [get_elbs_for_account], without the append:
    connect to the region's ELB endpoint and list its load balancers. *)
Definition elbs_of_region (access_key secret_key : string)
    (region : RegionInfo.t) : M (list boto.LoadBalancer) :=
  elb <- call boto.ElbConnectToRegion
           (boto.elb_connect_to_region (RegionInfo.name region)
              access_key secret_key) ;;
  match elb with
  | None => raise (AttributeError "get_all_load_balancers")
  | Some elb =>
      call boto.GetAllLoadBalancers (boto.get_all_load_balancers elb)
  end.

End Fanout.

(** ** More scripted inputs *)

Module Cases.

(** A status entry in the normal case: no events. *)
Definition no_events : InstanceStatus.t :=
  {| InstanceStatus.id := "i-1"; InstanceStatus.events := None |}.

(** Nothing raises and nothing is pending. *)
Definition calm : Mock.plan := Mock.fleet Mock.never Mock.db no_events.

(** An entry without ['name'], then the account ["prod"]. *)
Definition nameless_first : gmap string (list (gmap string string)) :=
  {[ "aws_accounts" :=
       [ {[ "key" := "K0"; "secret" := "S0" ]};
         {[ "name" := "prod"; "key" := "K"; "secret" := "S" ]} ] ]}.

(** The account ["prod"], then one stored as ["Dev"]. *)
Definition prod_and_Dev : gmap string (list (gmap string string)) :=
  {[ "aws_accounts" :=
       [ {[ "name" := "prod"; "key" := "K"; "secret" := "S" ]};
         {[ "name" := "Dev"; "key" := "K2"; "secret" := "S2" ]} ] ]}.

(** [get_all_regions] raises on the first connection. *)
Definition regions_fail : Mock.plan :=
  Mock.fleet (Mock.only boto.GetAllRegions "") Mock.db
    (Mock.two_events "i-1").

(** The account list is there, and empty. *)
Definition no_accounts : gmap string (list (gmap string string)) :=
  {[ "aws_accounts" := [] ]}.

End Cases.

(** * Properties *)

(** ** Strings *)

Lemma lower_ascii_idem (c : ascii) :
  lower_ascii (lower_ascii c) = lower_ascii c.
Proof. destruct c as [[] [] [] [] [] [] [] []]; vm_compute; reflexivity. Qed.

Lemma lower_idem (s : string) : lower (lower s) = lower s.
Proof.
  induction s as [|c s IH]; simpl; [reflexivity|].
  rewrite lower_ascii_idem, IH. reflexivity.
Qed.

Lemma append_cons (c : ascii) (s t : string) :
  String.append (String c s) t = String c (String.append s t).
Proof. reflexivity. Qed.

Lemma append_nil (t : string) : String.append EmptyString t = t.
Proof. reflexivity. Qed.

Lemma prefix_app (sub s : string) :
  String.prefix sub s = true <-> exists post, s = String.append sub post.
Proof.
  revert s. induction sub as [|a sub IH]; intros s.
  - setoid_rewrite append_nil. destruct s; simpl; split; eauto.
  - setoid_rewrite append_cons. destruct s as [|b s]; simpl.
    + split; [discriminate | intros [post H]; discriminate].
    + destruct (ascii_dec a b) as [->|Hne].
      * rewrite IH. split; intros [post H]; exists post; congruence.
      * split; [discriminate | intros [post H]; congruence].
Qed.

(** [contains] is Python's substring test. *)
Lemma contains_spec (sub s : string) :
  contains sub s = true <->
  exists pre post, s = String.append pre (String.append sub post).
Proof.
  induction s as [|c s IH]; cbn [contains].
  - rewrite orb_false_r, prefix_app. split.
    + intros [post H]. exists EmptyString, post. exact H.
    + intros [[|c pre] [post H]]; [|discriminate]. exists post. exact H.
  - rewrite orb_true_iff, prefix_app, IH. split.
    + intros [[post H] | (pre & post & H)].
      * exists EmptyString, post. exact H.
      * exists (String c pre), post. rewrite append_cons. congruence.
    + intros ([|c' pre] & post & H).
      * left. exists post. exact H.
      * right. exists pre, post. rewrite append_cons in H. congruence.
Qed.

(** ** Credential lookup *)

Section Credentials.
Context {sdk : boto.Sdk}.

Implicit Types (config : gmap string (list (gmap string string))).
Implicit Types (account : gmap string string) (s : state).

(** Entries stored under another name are passed over. *)
Lemma scan_accounts_skip (pre rest : list (gmap string string))
    (account_name : string) :
  Forall (fun a => exists n, a !! "name" = Some n /\ n <> lower account_name)
    pre ->
  scan_accounts (pre ++ rest) account_name = scan_accounts rest account_name.
Proof.
  induction 1 as [|a pre (n & Hn & Hne) _ IH]; simpl; [reflexivity|].
  unfold getitem at 1. rewrite Hn. simpl.
  destruct (String.eqb_spec n (lower account_name)); [contradiction|].
  exact IH.
Qed.


Lemma scan_accounts_miss (accounts : list (gmap string string))
    (account_name : string) :
  Forall (fun a => exists n, a !! "name" = Some n /\ n <> lower account_name)
    accounts ->
  scan_accounts accounts account_name =
  inl (ASEException "Cannot obtain credentials for specified account").
Proof.
  intros H. rewrite <- (app_nil_r accounts).
  rewrite (scan_accounts_skip _ _ _ H). reflexivity.
Qed.


(** C9.  When no configured entry's name equals the requested name up to
    letter case, [get_account_api_creds] raises
    [ASEException('Cannot obtain credentials for specified account')] and
    the call log is as it was: boto has not been called. *)
Theorem get_account_api_creds_no_match config
    (accounts : list (gmap string string)) (account_name : string) s :
  config !! "aws_accounts" = Some accounts ->
  Forall (fun a => exists n, a !! "name" = Some n /\
                             lower n <> lower account_name) accounts ->
  fst (get_account_api_creds config account_name s) =
    inl (ASEException "Cannot obtain credentials for specified account") /\
  calls (snd (get_account_api_creds config account_name s)) = calls s.
Proof.
  intros Hc Hall.
  unfold get_account_api_creds, lift, getitem. rewrite Hc. simpl.
  split; [|reflexivity].
  apply scan_accounts_miss.
  eapply Forall_impl; [exact Hall|].
  intros a (n & Hn & Hne). exists n. split; [exact Hn|].
  intros ->. apply Hne. apply lower_idem.
Qed.

End Credentials.

(** ** What a run adds to the call log

    One rule of [logs] per construct of the method monad, then the same for
    [sound]. *)

Section Logs.
Context {sdk : boto.Sdk}.

Abbreviation entry := (boto.op * boto.outcome)%type.

Lemma logs_new_calls {A} (m : M A) Q s :
  logs m Q -> Q (new_calls m s) (fst (m s)).
Proof.
  intros H. destruct (H s) as (new & Hc & HQ).
  unfold new_calls. rewrite Hc, drop_app_length. exact HQ.
Qed.

Lemma logs_conseq {A} (m : M A) (Q Q' : list entry -> res A -> Prop) :
  logs m Q -> (forall new r, Q new r -> Q' new r) -> logs m Q'.
Proof.
  intros H HQ s. destruct (H s) as (new & Hc & Hq). eauto.
Qed.

Lemma logs_ret {A} (a : A) (Q : list entry -> res A -> Prop) :
  Q [] (inr a) -> logs (ret a) Q.
Proof. intros H s. exists []. simpl. rewrite app_nil_r. auto. Qed.

Lemma logs_lift {A} (r : res A) (Q : list entry -> res A -> Prop) :
  Q [] r -> logs (lift r) Q.
Proof. intros H s. exists []. simpl. rewrite app_nil_r. auto. Qed.

Lemma logs_raise {A} (e : pyexn) (Q : list entry -> res A -> Prop) :
  Q [] (inl e) -> logs (raise e) Q.
Proof. intros H s. exists []. simpl. rewrite app_nil_r. auto. Qed.

Lemma logs_call {A} (o : boto.op) f (Q : list entry -> res A -> Prop) :
  (forall a, Q [(o, boto.Returned)] (inr a)) ->
  (forall e, Q [(o, boto.Raised)] (inl (SdkError e))) ->
  logs (call o f) Q.
Proof.
  intros Hr He s. unfold call.
  destruct (f (world s)) as [[e|a] w]; simpl; eauto.
Qed.

Lemma logs_bind {A B} (m : M A) (k : A -> M B)
    (Q1 : list entry -> res A -> Prop) (Q2 : A -> list entry -> res B -> Prop)
    (Q : list entry -> res B -> Prop) :
  logs m Q1 ->
  (forall a, logs (k a) (Q2 a)) ->
  (forall new e, Q1 new (inl e) -> Q new (inl e)) ->
  (forall new1 a new2 r, Q1 new1 (inr a) -> Q2 a new2 r -> Q (new1 ++ new2) r) ->
  logs (bind m k) Q.
Proof.
  intros Hm Hk Herr Hok s. unfold bind.
  destruct (Hm s) as (new1 & Hc1 & H1).
  destruct (m s) as [[e|a] s1]; simpl in *.
  - exists new1. auto.
  - destruct (Hk a s1) as (new2 & Hc2 & H2).
    exists (new1 ++ new2). rewrite Hc2, Hc1, app_assoc. eauto.
Qed.

Lemma logs_try_except {A} (m : M A) (msg : string)
    (Q1 Q : list entry -> res A -> Prop) :
  logs m Q1 ->
  (forall new a, Q1 new (inr a) -> Q new (inr a)) ->
  (forall new e, Q1 new (inl e) -> Q new (inl (ASEException msg))) ->
  logs (try_except m msg) Q.
Proof.
  intros Hm Hok Herr s. unfold try_except.
  destruct (Hm s) as (new & Hc & H1).
  destruct (m s) as [[e|a] s1]; simpl in *; eauto.
Qed.

Lemma sound_ret {A} P (a : A) : sound P (ret a).
Proof. apply logs_ret. split; [constructor | intros; constructor]. Qed.

Lemma sound_lift {A} P (r : res A) : sound P (lift r).
Proof. apply logs_lift. split; [constructor | intros; constructor]. Qed.

Lemma sound_raise {A} P (e : pyexn) : sound P (@raise _ A e).
Proof. apply logs_raise. split; [constructor | intros; constructor]. Qed.

Lemma sound_call {A} (P : boto.op -> Prop) (o : boto.op)
    (f : boto.World -> (boto.SdkExn + A) * boto.World) :
  P o -> sound P (call o f).
Proof.
  intros HP. apply logs_call.
  - intros a. split; [|intros _ _]; repeat constructor; exact HP.
  - intros e. split; [repeat constructor; exact HP | discriminate].
Qed.

Lemma sound_bind {A B} P (m : M A) (k : A -> M B) :
  sound P m -> (forall a, sound P (k a)) -> sound P (bind m k).
Proof.
  intros Hm Hk.
  apply (logs_bind m k (sound_post P) (fun _ => sound_post P));
    [exact Hm | exact Hk | |].
  - intros new e [HP _]. split; [exact HP | discriminate].
  - intros new1 a new2 r [HP1 H1] [HP2 H2]. split.
    + apply Forall_app. auto.
    + intros b ->. apply Forall_app. eauto.
Qed.

Lemma sound_try_except {A} P (m : M A) (msg : string) :
  sound P m -> sound P (try_except m msg).
Proof.
  intros Hm. apply (logs_try_except m msg (sound_post P)); [exact Hm | |].
  - auto.
  - intros new e [HP _]. split; [exact HP | discriminate].
Qed.

Lemma sound_for_each {A B} P (xs : list A) (body : B -> A -> M B) (acc : B) :
  (forall acc x, sound P (body acc x)) -> sound P (for_each xs body acc).
Proof.
  intros Hb. revert acc.
  induction xs as [|x xs IH]; intros acc; simpl.
  - apply sound_ret.
  - apply sound_bind; auto.
Qed.

Lemma sound_mono {A} (P P' : boto.op -> Prop) (m : M A) :
  (forall o, P o -> P' o) -> sound P m -> sound P' m.
Proof.
  intros HPP Hm. apply (logs_conseq m (sound_post P)); [exact Hm|].
  intros new r [HP H]. split; [|exact H].
  eapply Forall_impl; [exact HP|]. intros c. apply HPP.
Qed.

Lemma wrapped {A} P (m : M A) (msg : string) :
  sound P m -> logs (try_except m msg) (wrapped_post P msg).
Proof.
  intros Hm. apply (logs_try_except m msg (sound_post P)); [exact Hm | |].
  - intros new a [HP H]. split; [exact HP | split; [exact H | discriminate]].
  - intros new e [HP _]. split; [exact HP | split; [discriminate | congruence]].
Qed.

(** A raised call in the log rules out a returned value. *)
Lemma raised_not_returned (new : list entry) (o : boto.op) :
  In (o, boto.Raised) new -> Forall returned new -> False.
Proof.
  intros Hin Hall. rewrite Forall_forall in Hall.
  apply list_elem_of_In in Hin. specialize (Hall _ Hin). discriminate.
Qed.

Lemma raised_op (P : boto.op -> Prop) (new : list entry) (o : boto.op) :
  In (o, boto.Raised) new -> Forall (fun c => P (fst c)) new -> P o.
Proof.
  intros Hin Hall. rewrite Forall_forall in Hall.
  apply list_elem_of_In in Hin. exact (Hall _ Hin).
Qed.

Lemma wrapped_raise_post {A} (P P' : boto.op -> Prop) (msg : string)
    (new : list entry) (r : res A) :
  wrapped_post P msg new r -> raise_post P' msg new r.
Proof.
  intros (_ & Hok & Herr) o _ Hin. destruct r as [e|a].
  - f_equal. apply Herr. reflexivity.
  - destruct (raised_not_returned _ _ Hin (Hok a eq_refl)).
Qed.

(** Code run before the [try]: if it raises, nothing in [P'] was called; if
    it returns, none of its calls raised. *)
Lemma raise_post_after {A B} (P P' : boto.op -> Prop) (msg : string)
    (m : M A) (k : A -> M B) :
  sound P m ->
  (forall o, P o -> ~ P' o) ->
  (forall a, logs (k a) (raise_post P' msg)) ->
  logs (bind m k) (raise_post P' msg).
Proof.
  intros Hm Hdisj Hk.
  apply (logs_bind m k (sound_post P) (fun _ => raise_post P' msg));
    [exact Hm | exact Hk | |].
  - intros new e [HP _] o Ho Hin.
    destruct (Hdisj o (raised_op P _ _ Hin HP) Ho).
  - intros new1 a new2 r [_ Hok] H2 o Ho Hin.
    apply in_app_or in Hin. destruct Hin as [Hin|Hin].
    + destruct (raised_not_returned _ _ Hin (Hok a eq_refl)).
    + exact (H2 o Ho Hin).
Qed.

End Logs.

Create HintDb soundness.

#[local] Hint Resolve sound_ret sound_lift sound_raise sound_call sound_bind
  sound_try_except sound_for_each : soundness.

(** ** The methods and the call log *)

Section Methods.
Context {sdk : boto.Sdk}.
Variable config : gmap string (list (gmap string string)).

Lemma connect_op_1 : connect_op boto.ConnectEc2.
Proof. left. reflexivity. Qed.

Lemma connect_op_2 : connect_op boto.GetAllRegions.
Proof. right. left. reflexivity. Qed.

Lemma connect_op_3 : connect_op boto.RegionConnect.
Proof. right. right. reflexivity. Qed.

Lemma any_op_I (o : boto.op) : any_op o.
Proof. exact I. Qed.

Hint Resolve connect_op_1 connect_op_2 connect_op_3 any_op_I : soundness.

Lemma sound_get_account_api_creds P (account_name : string) :
  sound P (get_account_api_creds config account_name).
Proof. apply sound_lift. Qed.

Hint Resolve sound_get_account_api_creds : soundness.

Lemma connect_post_quiet {A} (e : pyexn) : connect_post (A := A) [] (inl e).
Proof. split; [constructor | split; [discriminate | done]]. Qed.

(** Credential lookup leaves the log alone; what follows is wrapped. *)
Lemma logs___ec2_connect_all_regions (account_name : string) :
  logs (__ec2_connect_all_regions config account_name) connect_post.
Proof.
  unfold __ec2_connect_all_regions, get_account_api_creds.
  pose (quiet := fun (new : list (boto.op * boto.outcome))
                     (_ : res (gmap string string)) => new = []).
  pose (quiet' := fun (new : list (boto.op * boto.outcome))
                      (_ : res string) => new = []).
  apply (logs_bind _ _ quiet (fun _ => connect_post));
    [apply logs_lift; reflexivity | |
     intros new e ->; apply connect_post_quiet |
     intros new1 a new2 r -> H; exact H].
  intros creds.
  apply (logs_bind _ _ quiet' (fun _ => connect_post));
    [apply logs_lift; reflexivity | |
     intros new e ->; apply connect_post_quiet |
     intros new1 a new2 r -> H; exact H].
  intros access_key.
  apply (logs_bind _ _ quiet' (fun _ => connect_post));
    [apply logs_lift; reflexivity | |
     intros new e ->; apply connect_post_quiet |
     intros new1 a new2 r -> H; exact H].
  intros secret_key.
  eapply logs_conseq; [apply (wrapped connect_op); auto 10 with soundness|].
  intros new r (HP & Hok & Herr).
  split; [exact HP | split; [exact Hok |]]. intros e He _. auto.
Qed.

Lemma sound___ec2_connect_all_regions (account_name : string) :
  sound connect_op (__ec2_connect_all_regions config account_name).
Proof.
  eapply logs_conseq; [apply logs___ec2_connect_all_regions|].
  intros new r (HP & Hok & _). split; assumption.
Qed.

Lemma sound_any {A} P (m : M A) : sound P m -> sound any_op m.
Proof. apply sound_mono. intros; exact I. Qed.

Hint Resolve sound___ec2_connect_all_regions sound_any : soundness.

Lemma sound_get_instances_for_account (account_name : string) :
  sound any_op (get_instances_for_account config account_name).
Proof.
  unfold get_instances_for_account.
  apply sound_try_except, sound_bind; [eauto with soundness|].
  intros ec2s. auto 10 with soundness.
Qed.

Lemma sound___get_all_instance_status (account_name : string) :
  sound any_op (__get_all_instance_status config account_name).
Proof.
  unfold __get_all_instance_status.
  apply sound_try_except, sound_bind; [eauto with soundness|].
  intros ec2s. auto 10 with soundness.
Qed.

Lemma sound_elb_loop (regions : list RegionInfo.t)
    (access_key secret_key : string) (elb_hosts : list boto.LoadBalancer) :
  sound elb_loop_op
    (for_each regions
       (fun elb_hosts region =>
          elb <- call boto.ElbConnectToRegion
                   (boto.elb_connect_to_region (RegionInfo.name region)
                      access_key secret_key) ;;
          match elb with
          | None => raise (AttributeError "get_all_load_balancers")
          | Some elb =>
              lbs <- call boto.GetAllLoadBalancers
                       (boto.get_all_load_balancers elb) ;;
              ret (append_all elb_hosts lbs)
          end)
       elb_hosts).
Proof.
  apply sound_for_each. intros acc region.
  apply sound_bind; [apply sound_call; left; reflexivity|].
  intros [elb|]; [|apply sound_raise].
  apply sound_bind; [apply sound_call; right; reflexivity|].
  intros lbs. apply sound_ret.
Qed.

Lemma sound_get_elbs_for_account (account_name : string) :
  sound any_op (get_elbs_for_account config account_name).
Proof.
  unfold get_elbs_for_account.
  repeat (apply sound_bind; [auto with soundness | intros ?]).
  apply sound_try_except. eapply sound_any, sound_elb_loop.
Qed.

Lemma sound_get_security_groups (account_name : string) :
  sound any_op (get_security_groups config account_name).
Proof.
  unfold get_security_groups.
  apply sound_bind; [eauto with soundness|].
  intros ec2s. auto 10 with soundness.
Qed.

Lemma sound_over_all_accounts {A} (f : string -> M (list A)) :
  (forall a, sound any_op (f a)) -> sound any_op (over_all_accounts config f).
Proof.
  intros Hf. unfold over_all_accounts, get_all_aws_accounts.
  auto 10 with soundness.
Qed.

(** *** Failures inside boto *)

Lemma raised_in_wrapped {A} P (m : M A) (msg : string) s (o : boto.op) :
  sound P m ->
  In (o, boto.Raised) (new_calls (try_except m msg) s) ->
  fst (try_except m msg s) = inl (ASEException msg).
Proof.
  intros Hm Hin.
  pose proof (logs_new_calls _ _ s (wrapped P m msg Hm)) as H.
  exact (wrapped_raise_post P any_op msg _ _ H o I Hin).
Qed.

Lemma logs_get_elbs_for_account (account_name : string) :
  logs (get_elbs_for_account config account_name)
    (raise_post elb_loop_op "Cannot get ELBs for named account").
Proof.
  unfold get_elbs_for_account.
  assert (forall o, connect_op o -> ~ elb_loop_op o) as Hdisj.
  { intros o [->|[->| ->]] [?|?]; discriminate. }
  repeat (apply (raise_post_after connect_op); [auto with soundness | exact Hdisj | intros ?]).
  eapply logs_conseq; [apply wrapped, sound_elb_loop|].
  intros new r. apply wrapped_raise_post.
Qed.

Lemma sound_sg_loop (ec2s : list boto.EC2Connection)
    (sgroups : list boto.SecurityGroup) :
  sound sg_op
    (for_each ec2s
       (fun sgroups e =>
          l <- call boto.GetAllSecurityGroups
                 (boto.get_all_security_groups e) ;;
          ret (append_all sgroups l))
       sgroups).
Proof.
  apply sound_for_each. intros acc e.
  apply sound_bind; [apply sound_call; reflexivity|].
  intros l. apply sound_ret.
Qed.

Lemma logs_get_security_groups_loop (account_name : string) :
  logs (get_security_groups config account_name)
    (raise_post sg_op "Cannot get security groups for named account").
Proof.
  unfold get_security_groups.
  apply (raise_post_after connect_op); [auto with soundness | |].
  - intros o [->|[->| ->]]; discriminate.
  - intros ec2s. eapply logs_conseq; [apply wrapped, sound_sg_loop|].
    intros new r. apply wrapped_raise_post.
Qed.

Lemma logs_get_security_groups_connect (account_name : string) :
  logs (get_security_groups config account_name)
    (raise_post connect_op "Cannot connect to ec2 region").
Proof.
  unfold get_security_groups.
  apply (logs_bind _ _ connect_post
           (fun _ => wrapped_post sg_op
                       "Cannot get security groups for named account"));
    [apply logs___ec2_connect_all_regions
    | intros ec2s; apply wrapped, sound_sg_loop | |].
  - intros new e (_ & _ & Herr) o _ Hin. f_equal.
    apply Herr; [reflexivity|]. intros ->. destruct Hin.
  - intros new1 a new2 r (_ & Hok & _) (HP & _ & _) o Ho Hin.
    apply in_app_or in Hin. destruct Hin as [Hin|Hin].
    + destruct (raised_not_returned _ _ Hin (Hok a eq_refl)).
    + pose proof (raised_op sg_op _ _ Hin HP) as ->.
      destruct Ho as [?|[?|?]]; discriminate.
Qed.

Lemma calls_new_calls {A} (m : M A) Q s :
  logs m Q -> calls (snd (m s)) = calls s ++ new_calls m s.
Proof.
  intros H. destruct (H s) as (new & Hc & _).
  unfold new_calls. rewrite Hc, drop_app_length. reflexivity.
Qed.

Lemma status_raised (account_name : string) s (o : boto.op) :
  In (o, boto.Raised)
     (new_calls (__get_all_instance_status config account_name) s) ->
  fst (__get_all_instance_status config account_name s) =
  inl (ASEException "Cannot obtain instance status").
Proof.
  unfold __get_all_instance_status. apply (raised_in_wrapped any_op).
  apply sound_bind; [eauto with soundness|].
  intros ec2s. auto 10 with soundness.
Qed.

Lemma instances_raised (account_name : string) s (o : boto.op) :
  In (o, boto.Raised)
     (new_calls (get_instances_for_account config account_name) s) ->
  fst (get_instances_for_account config account_name s) =
  inl (ASEException "Cannot get instances for named account").
Proof.
  unfold get_instances_for_account. apply (raised_in_wrapped any_op).
  apply sound_bind; [eauto with soundness|].
  intros ec2s. auto 10 with soundness.
Qed.

(** How [get_all_instance_events] ends, by how its two helpers end. *)
Lemma get_all_instance_events_status_raises (account_name : string)
    s (e : pyexn) s1 :
  __get_all_instance_status config account_name s = (inl e, s1) ->
  get_all_instance_events config account_name s = (inl e, s1).
Proof.
  intros H. unfold get_all_instance_events, bind. rewrite H. reflexivity.
Qed.

Lemma get_all_instance_events_instances_raise (account_name : string)
    s (status_list : list InstanceStatus.t) s1 (e : pyexn) s2 :
  __get_all_instance_status config account_name s = (inr status_list, s1) ->
  get_instances_for_account config account_name s1 = (inl e, s2) ->
  get_all_instance_events config account_name s = (inl e, s2).
Proof.
  intros H1 H2. unfold get_all_instance_events, bind. rewrite H1, H2.
  reflexivity.
Qed.

Lemma get_all_instance_events_final_state (account_name : string)
    s (status_list : list InstanceStatus.t) s1 :
  __get_all_instance_status config account_name s = (inr status_list, s1) ->
  snd (get_all_instance_events config account_name s) =
  snd (get_instances_for_account config account_name s1).
Proof.
  intros H1. unfold get_all_instance_events, bind. rewrite H1.
  destruct (get_instances_for_account config account_name s1)
    as [[e|instances] s2]; [reflexivity|].
  unfold try_except, lift. destruct (non_ok_events _ _ _); reflexivity.
Qed.

(** X21.  An exception raised inside boto reaches the caller as an
    [ASEException] with a fixed message in these cases:
    - [get_instances_for_account], [get_all_instances], [get_all_elbs] and
      [get_all_security_groups] run wholly inside their [try], and give
      their own message;
    - [get_elbs_for_account] gives its own message for a failure in its
      per-region loop;
    - [get_security_groups] gives its own message for a failure in its
      per-region loop, and the message of [__ec2_connect_all_regions] for a
      failure while connecting;
    - [get_all_instance_events] gives the message of the helper in which
      boto raised: that of [__get_all_instance_status] if boto raised
      while it ran, that of [get_instances_for_account] if the status
      helper returned and boto raised in the instance helper; and boto
      raises nowhere else in that method. *)
Theorem boto_failures_reach_caller_as_ASEException
    (account_name : string) (s : state) :
  (boto_raised any_op (get_instances_for_account config account_name) s ->
   raises_ASE (get_instances_for_account config account_name) s
     "Cannot get instances for named account") /\
  (boto_raised any_op (get_all_instances config) s ->
   raises_ASE (get_all_instances config) s "Cannot get all instances") /\
  (boto_raised any_op (get_all_elbs config) s ->
   raises_ASE (get_all_elbs config) s "Cannot get all ELBs") /\
  (boto_raised any_op (get_all_security_groups config) s ->
   raises_ASE (get_all_security_groups config) s
     "Cannot get all security groups") /\
  (boto_raised elb_loop_op (get_elbs_for_account config account_name) s ->
   raises_ASE (get_elbs_for_account config account_name) s
     "Cannot get ELBs for named account") /\
  (boto_raised sg_op (get_security_groups config account_name) s ->
   raises_ASE (get_security_groups config account_name) s
     "Cannot get security groups for named account") /\
  (boto_raised connect_op (get_security_groups config account_name) s ->
   raises_ASE (get_security_groups config account_name) s
     "Cannot connect to ec2 region") /\
  (boto_raised any_op (__get_all_instance_status config account_name) s ->
   raises_ASE (get_all_instance_events config account_name) s
     "Cannot obtain instance status") /\
  (forall status_list s1,
     __get_all_instance_status config account_name s =
       (inr status_list, s1) ->
     boto_raised any_op (get_instances_for_account config account_name) s1 ->
     raises_ASE (get_all_instance_events config account_name) s
       "Cannot get instances for named account") /\
  (boto_raised any_op (get_all_instance_events config account_name) s ->
   boto_raised any_op (__get_all_instance_status config account_name) s \/
   exists status_list s1,
     __get_all_instance_status config account_name s =
       (inr status_list, s1) /\
     boto_raised any_op (get_instances_for_account config account_name) s1).
Proof.
  unfold raises_ASE.
  repeat match goal with |- _ /\ _ => split end.
  - intros (o & Ho & Hin). exact (instances_raised _ _ _ Hin).
  - intros (o & Ho & Hin). revert Hin. unfold get_all_instances.
    apply (raised_in_wrapped any_op).
    apply sound_over_all_accounts, sound_get_instances_for_account.
  - intros (o & Ho & Hin). revert Hin. unfold get_all_elbs.
    apply (raised_in_wrapped any_op).
    apply sound_over_all_accounts, sound_get_elbs_for_account.
  - intros (o & Ho & Hin). revert Hin. unfold get_all_security_groups.
    apply (raised_in_wrapped any_op).
    apply sound_over_all_accounts, sound_get_security_groups.
  - intros (o & Ho & Hin).
    exact (logs_new_calls _ _ s (logs_get_elbs_for_account account_name)
             o Ho Hin).
  - intros (o & Ho & Hin).
    exact (logs_new_calls _ _ s (logs_get_security_groups_loop account_name)
             o Ho Hin).
  - intros (o & Ho & Hin).
    exact (logs_new_calls _ _ s
             (logs_get_security_groups_connect account_name) o Ho Hin).
  - intros (o & Ho & Hin). pose proof (status_raised _ _ _ Hin) as E.
    destruct (__get_all_instance_status config account_name s)
      as [[e|status_list] s1] eqn:Hs; [|discriminate E].
    rewrite (get_all_instance_events_status_raises _ _ _ _ Hs).
    cbn [fst] in E |- *. injection E as ->. reflexivity.
  - intros status_list s1 Hs (o & Ho & Hin).
    pose proof (instances_raised _ _ _ Hin) as E.
    destruct (get_instances_for_account config account_name s1)
      as [[e|instances] s2] eqn:Hi; [|discriminate E].
    rewrite (get_all_instance_events_instances_raise _ _ _ _ _ _ Hs Hi).
    cbn [fst] in E |- *. injection E as ->. reflexivity.
  - intros (o & Ho & Hin).
    destruct (__get_all_instance_status config account_name s)
      as [[e|status_list] s1] eqn:Hs.
    + left. exists o. split; [exact I|].
      unfold new_calls in *.
      rewrite (get_all_instance_events_status_raises _ _ _ _ Hs) in Hin.
      rewrite Hs. exact Hin.
    + right. exists status_list, s1. split; [reflexivity|].
      exists o. split; [exact I|].
      pose proof (calls_new_calls _ _ s
                    (sound___get_all_instance_status account_name)) as C1.
      pose proof (logs_new_calls _ _ s
                    (sound___get_all_instance_status account_name))
        as [_ Hret].
      pose proof (calls_new_calls _ _ s1
                    (sound_get_instances_for_account account_name)) as C2.
      rewrite Hs in C1, Hret. simpl in C1, Hret.
      unfold new_calls in Hin.
      rewrite (get_all_instance_events_final_state _ _ _ _ Hs), C2, C1,
        <- app_assoc, drop_app_length in Hin.
      apply in_app_or in Hin. destruct Hin as [Hin|Hin]; [|exact Hin].
      destruct (raised_not_returned _ _ Hin (Hret status_list eq_refl)).
Qed.

(** C4.  If a per-region [get_all_reservations] call raises while
    [get_instances_for_account] runs, the caller sees
    [ASEException('Cannot get instances for named account')] and no list:
    what earlier regions returned is dropped. *)
Theorem get_instances_for_account_no_partial_result
    (account_name : string) (s : state) :
  In (boto.GetAllReservations, boto.Raised)
     (new_calls (get_instances_for_account config account_name) s) ->
  fst (get_instances_for_account config account_name s) =
    inl (ASEException "Cannot get instances for named account") /\
  (forall l, fst (get_instances_for_account config account_name s) <> inr l).
Proof.
  intros Hin.
  assert (fst (get_instances_for_account config account_name s) =
          inl (ASEException "Cannot get instances for named account")) as E.
  { revert Hin. unfold get_instances_for_account.
    apply (raised_in_wrapped any_op).
    apply sound_bind; [eauto with soundness|].
    intros ec2s. auto 10 with soundness. }
  split; [exact E|]. intros l. rewrite E. discriminate.
Qed.

(** *** All accounts *)

Lemma names_of_Forall2 (accounts : list (gmap string string))
    (names : list string) :
  Forall2 (fun a n => a !! "name" = Some n) accounts names ->
  names_of accounts = inr names.
Proof.
  induction 1 as [|a n accounts names Hn _ IH]; simpl; [reflexivity|].
  unfold getitem. rewrite Hn. simpl. rewrite IH. reflexivity.
Qed.

Lemma for_each_runs_in_order {A} (f : string -> M (list A))
    (names : list string) s (rs : list (list A)) s' (results : list A) :
  runs_in_order f names s rs s' ->
  for_each names (fun results a => r <- f a ;; ret (results ++ r)) results s =
  (inr (results ++ concat rs), s').
Proof.
  intros H. revert results.
  induction H as [s|a names s r s1 rs s' Hf _ IH]; intros results; simpl.
  - rewrite app_nil_r. reflexivity.
  - unfold bind at 1. unfold bind at 1. rewrite Hf. unfold ret at 1.
    rewrite IH, app_assoc. reflexivity.
Qed.

Lemma over_all_accounts_runs_in_order {A} (f : string -> M (list A))
    (accounts : list (gmap string string)) (names : list string)
    s (rs : list (list A)) s' :
  config !! "aws_accounts" = Some accounts ->
  Forall2 (fun a n => a !! "name" = Some n) accounts names ->
  runs_in_order f names s rs s' ->
  over_all_accounts config f s = (inr (concat rs), s').
Proof.
  intros Hc Hn Hr.
  unfold over_all_accounts, get_all_aws_accounts, bind, lift, getitem.
  rewrite Hc, (names_of_Forall2 _ _ Hn).
  apply (for_each_runs_in_order f names s rs s' [] Hr).
Qed.

(** C5.  When [get_instances_for_account] returns for every configured
    account, run one after the other in configuration order,
    [get_all_instances] returns the concatenation of those lists in that
    order. *)
Theorem get_all_instances_is_concat
    (accounts : list (gmap string string)) (names : list string)
    (s : state) (rs : list (list Instance.t)) (s' : state) :
  config !! "aws_accounts" = Some accounts ->
  Forall2 (fun a n => a !! "name" = Some n) accounts names ->
  runs_in_order (get_instances_for_account config) names s rs s' ->
  get_all_instances config s = (inr (concat rs), s').
Proof.
  intros Hc Hn Hr. unfold get_all_instances, try_except.
  rewrite (over_all_accounts_runs_in_order _ _ _ _ _ _ Hc Hn Hr).
  reflexivity.
Qed.

(** C10.  Without the ['aws_accounts'] key, [get_all_aws_accounts] raises
    the bare [KeyError], and each "all accounts" method, which calls it
    inside its [try], raises [ASEException] with its own message. *)
Theorem missing_aws_accounts_key (s : state) :
  config !! "aws_accounts" = None ->
  get_all_aws_accounts config s = (inl (KeyError "aws_accounts"), s) /\
  get_all_instances config s =
    (inl (ASEException "Cannot get all instances"), s) /\
  get_all_elbs config s = (inl (ASEException "Cannot get all ELBs"), s) /\
  get_all_security_groups config s =
    (inl (ASEException "Cannot get all security groups"), s).
Proof.
  intros Hc.
  unfold get_all_instances, get_all_elbs, get_all_security_groups,
    try_except, over_all_accounts, bind, get_all_aws_accounts, lift, getitem.
  rewrite Hc. auto.
Qed.

End Methods.

(** ** Maintenance events *)

Section Events.
Context {sdk : boto.Sdk}.
Variable config : gmap string (list (gmap string string)).

Lemma find_instance_snoc (instances : list Instance.t) (i : Instance.t)
    (s : InstanceStatus.t) :
  find_instance (instances ++ [i]) s =
  if String.eqb (Instance.id i) (InstanceStatus.id s) then Inst i
  else find_instance instances s.
Proof. unfold find_instance. rewrite fold_left_app. reflexivity. Qed.

(** The scan ends on the last match, or on the initial [''] if there is
    none. *)
Lemma find_instance_cases (instances : list Instance.t)
    (s : InstanceStatus.t) :
  (exists i, last_match instances s i /\ find_instance instances s = Inst i)
  \/ (no_match instances s /\ find_instance instances s = Str "").
Proof.
  induction instances as [|i instances IH] using rev_ind.
  - right. split; [constructor | reflexivity].
  - rewrite find_instance_snoc.
    destruct (String.eqb_spec (Instance.id i) (InstanceStatus.id s)) as [E|N].
    + left. exists i. split; [|reflexivity].
      exists instances, []. repeat split; [exact E | constructor].
    + destruct IH as [(j & (pre & post & -> & Hj & Hpost) & Hf) | [Hno Hf]].
      * left. exists j. split; [|exact Hf].
        exists pre, (post ++ [i]). rewrite <- app_assoc. repeat split.
        -- exact Hj.
        -- apply Forall_app. split; [exact Hpost | repeat constructor; exact N].
      * right. split; [|exact Hf].
        apply Forall_app. split; [exact Hno | repeat constructor; exact N].
Qed.

Lemma last_match_not_no_match (instances : list Instance.t)
    (s : InstanceStatus.t) (i : Instance.t) :
  last_match instances s i -> no_match instances s -> False.
Proof.
  intros (pre & post & -> & Hi & _) Hno.
  apply Forall_app in Hno. destruct Hno as [_ Hno].
  apply Forall_cons in Hno. destruct Hno as [Hno _]. contradiction.
Qed.

Lemma find_instance_no_match (instances : list Instance.t)
    (s : InstanceStatus.t) :
  no_match instances s -> find_instance instances s = Str "".
Proof.
  intros Hno.
  destruct (find_instance_cases instances s) as [(i & Hl & _) | [_ E]];
    [|exact E].
  destruct (last_match_not_no_match _ _ _ Hl Hno).
Qed.

Lemma find_instance_some_match (instances : list Instance.t)
    (s : InstanceStatus.t) :
  Exists (fun i => Instance.id i = InstanceStatus.id s) instances ->
  exists i, last_match instances s i /\ find_instance instances s = Inst i.
Proof.
  intros Hex.
  destruct (find_instance_cases instances s) as [H | [Hno _]]; [exact H|].
  apply Exists_exists in Hex. destruct Hex as (i & Hin & Hi).
  unfold no_match in Hno. rewrite Forall_forall in Hno.
  destruct (Hno i Hin Hi).
Qed.

(** The dictionary built once the scan has ended on [i]. *)
Lemma event_record_found (account_name : string)
    (instances : list Instance.t) (s : InstanceStatus.t) (event : Event.t)
    (i : Instance.t) :
  find_instance instances s = Inst i ->
  event_record account_name instances s event =
  inr {| MaintenanceEvent.instance_id := InstanceStatus.id s;
         MaintenanceEvent.completed :=
           contains "[Completed]" (Event.description event);
         MaintenanceEvent.event_code := Event.code event;
         MaintenanceEvent.descript := Event.description event;
         MaintenanceEvent.time_nb4 := Event.not_before event;
         MaintenanceEvent.time_nafter := Event.not_after event;
         MaintenanceEvent.tags := Instance.tags i;
         MaintenanceEvent.account := account_name;
         MaintenanceEvent.region := RegionInfo.name (Instance.region i) |}.
Proof.
  intros Hf. unfold event_record. rewrite Hf. simpl.
  destruct (contains _ _); reflexivity.
Qed.

(** With [instance] still [''], reading [instance.tags] raises. *)
Lemma event_record_not_found (account_name : string)
    (instances : list Instance.t) (s : InstanceStatus.t) (event : Event.t) :
  find_instance instances s = Str "" ->
  event_record account_name instances s event = inl (AttributeError "tags").
Proof. intros Hf. unfold event_record. rewrite Hf. reflexivity. Qed.

(** *** The two loops *)

(** A loop that appends one result per element returns exactly when every
    element yields a result, and then appends them in order. *)
Lemma rfor_each_append {E A B} (f : A -> E + B) (xs : list A)
    (acc out : list B) :
  rfor_each xs (fun acc x => d <~ f x ;; inr (acc ++ [d])) acc = inr out <->
  exists ds, out = acc ++ ds /\ Forall2 (fun x d => f x = inr d) xs ds.
Proof.
  revert acc. induction xs as [|x xs IH]; intros acc; simpl.
  - split.
    + intros [= <-]. exists []. rewrite app_nil_r. split; [done | constructor].
    + intros (ds & -> & H). apply Forall2_nil_inv_l in H as ->.
      rewrite app_nil_r. reflexivity.
  - destruct (f x) as [e|d] eqn:Hx; simpl.
    + split; [discriminate|].
      intros (ds & _ & H). apply Forall2_cons_inv_l in H.
      destruct H as (d & ds' & Hd & _ & _). congruence.
    + rewrite IH. split.
      * intros (ds & -> & H). exists (d :: ds).
        rewrite <- app_assoc. split; [done | constructor; assumption].
      * intros (ds & -> & H). apply Forall2_cons_inv_l in H.
        destruct H as (d' & ds' & Hd & H & ->).
        assert (d' = d) as -> by congruence.
        exists ds'. rewrite <- app_assoc. split; [done | exact H].
Qed.

Lemma Forall2_map_pair {A B C} (P : A * B -> C -> Prop) (a : A)
    (xs : list B) (ds : list C) :
  Forall2 P (map (pair a) xs) ds <-> Forall2 (fun x d => P (a, x) d) xs ds.
Proof.
  revert ds. induction xs as [|x xs IH]; intros ds; simpl.
  - split; intros H; apply Forall2_nil_inv_l in H as ->; constructor.
  - split; intros H; apply Forall2_cons_inv_l in H;
      destruct H as (d & ds' & Hd & H & ->); constructor;
      try assumption; apply IH; assumption.
Qed.

Lemma Forall2_In_l {A B} (P : A -> B -> Prop) (l : list A) (k : list B)
    (x : A) :
  Forall2 P l k -> In x l -> exists y, P x y.
Proof.
  induction 1 as [|a b l k Hab _ IH]; intros Hin; [destruct Hin|].
  destruct Hin as [<- | Hin]; eauto.
Qed.

(** The guard [if s.events:] skips only entries with nothing to loop over. *)
Lemma truthy_false_events {A} (o : option (list A)) :
  truthy o = false -> default [] o = [].
Proof. destruct o as [[|x l]|]; [reflexivity | discriminate | reflexivity]. Qed.

Lemma truthy_true_events {A} (o : option (list A)) :
  truthy o = true -> exists x l, default [] o = x :: l.
Proof. destruct o as [[|x l]|]; [discriminate | eauto | discriminate]. Qed.

Lemma non_ok_loop (account_name : string) (instances : list Instance.t)
    (status_list : list InstanceStatus.t)
    (acc out : list MaintenanceEvent.t) :
  rfor_each status_list
    (fun non_ok s =>
       if truthy (InstanceStatus.events s) then
         rfor_each (default [] (InstanceStatus.events s))
           (fun non_ok event =>
              d <~ event_record (sdk := sdk) account_name instances s event ;;
              inr (non_ok ++ [d]))
           non_ok
       else inr non_ok)
    acc = inr out <->
  exists ds, out = acc ++ ds /\
    Forall2 (fun p d => event_record (sdk := sdk) account_name instances
                          (fst p) (snd p) = inr d)
      (pending status_list) ds.
Proof.
  revert acc. induction status_list as [|s rest IH]; intros acc; simpl.
  - split.
    + intros [= <-]. exists []. rewrite app_nil_r. split; [done | constructor].
    + intros (ds & -> & H). apply Forall2_nil_inv_l in H as ->.
      rewrite app_nil_r. reflexivity.
  - pose proof (rfor_each_append
                  (event_record (sdk := sdk) account_name instances s)
                  (default [] (InstanceStatus.events s)) acc) as Hin.
    destruct (truthy (InstanceStatus.events s)) eqn:Ht;
      [|rewrite (truthy_false_events _ Ht); simpl; apply IH].
    destruct (rfor_each (default [] (InstanceStatus.events s)) _ acc)
      as [e|mid]; simpl.
    + split; [discriminate|].
      intros (ds & _ & H). apply Forall2_app_inv_l in H.
      destruct H as (ds1 & ds2 & H1 & _ & ->).
      apply Forall2_map_pair in H1.
      assert (@inl pyexn (list MaintenanceEvent.t) e = inr (acc ++ ds1)) as C;
        [|discriminate C].
      apply Hin. exists ds1. split; [reflexivity | exact H1].
    + rewrite IH. split.
      * intros (ds2 & -> & H2).
        destruct (proj1 (Hin mid) eq_refl) as (ds1 & -> & H1).
        exists (ds1 ++ ds2). rewrite app_assoc. split; [reflexivity|].
        apply Forall2_app; [apply Forall2_map_pair; exact H1 | exact H2].
      * intros (ds & -> & H). apply Forall2_app_inv_l in H.
        destruct H as (ds1 & ds2 & H1 & H2 & ->).
        apply Forall2_map_pair in H1.
        assert (@inr pyexn _ mid = inr (acc ++ ds1)) as [= ->].
        { apply Hin. exists ds1. split; [reflexivity | exact H1]. }
        exists ds2. rewrite app_assoc. split; [reflexivity | exact H2].
Qed.

Lemma non_ok_events_inr (account_name : string)
    (status_list : list InstanceStatus.t) (instances : list Instance.t)
    (recs : list MaintenanceEvent.t) :
  non_ok_events (sdk := sdk) account_name status_list instances = inr recs <->
  Forall2 (fun p d => event_record (sdk := sdk) account_name instances
                        (fst p) (snd p) = inr d)
    (pending status_list) recs.
Proof.
  unfold non_ok_events. rewrite non_ok_loop. simpl. split.
  - intros (ds & -> & H). exact H.
  - intros H. exists recs. split; [reflexivity | exact H].
Qed.

(** *** The method *)

(** Once both helpers have returned, the method returns what the loops
    built, or wraps what they raised. *)
Lemma get_all_instance_events_after_helpers (account_name : string)
    (s0 s1 s2 : state) (status_list : list InstanceStatus.t)
    (instances : list Instance.t) :
  __get_all_instance_status config account_name s0 = (inr status_list, s1) ->
  get_instances_for_account config account_name s1 = (inr instances, s2) ->
  get_all_instance_events config account_name s0 =
  (match non_ok_events account_name status_list instances with
   | inr non_ok => inr non_ok
   | inl _ => inl (ASEException "Cannot get instance maintenance events")
   end, s2).
Proof.
  intros H1 H2. unfold get_all_instance_events, bind. rewrite H1, H2.
  unfold try_except, lift. destruct (non_ok_events _ _ _); reflexivity.
Qed.

Lemma pending_records_exist (account_name : string)
    (instances : list Instance.t) (status_list : list InstanceStatus.t) :
  all_matched instances status_list ->
  exists recs,
    Forall2 (fun p d => event_record (sdk := sdk) account_name instances
                          (fst p) (snd p) = inr d)
      (pending status_list) recs.
Proof.
  induction 1 as [|s rest Hs _ (recs & IH)]; simpl.
  - exists []. constructor.
  - destruct (truthy (InstanceStatus.events s)) eqn:Ht.
    + destruct (find_instance_some_match _ _ (Hs eq_refl)) as (i & _ & Hf).
      eexists (map _ (default [] (InstanceStatus.events s)) ++ recs).
      apply Forall2_app; [|exact IH]. apply Forall2_map_pair.
      induction (default [] (InstanceStatus.events s)) as [|ev evs IHe];
        simpl; constructor; [|exact IHe].
      apply event_record_found. exact Hf.
    + rewrite (truthy_false_events _ Ht). exists recs. exact IH.
Qed.

(** With every pending entry matched, the method returns one dictionary
    per pending event, in loop order. *)
Lemma get_all_instance_events_returns (account_name : string)
    (s0 s1 s2 : state) (status_list : list InstanceStatus.t)
    (instances : list Instance.t) :
  __get_all_instance_status config account_name s0 = (inr status_list, s1) ->
  get_instances_for_account config account_name s1 = (inr instances, s2) ->
  all_matched instances status_list ->
  exists recs,
    get_all_instance_events config account_name s0 = (inr recs, s2) /\
    Forall2 (fun p d => event_record (sdk := sdk) account_name instances
                          (fst p) (snd p) = inr d)
      (pending status_list) recs.
Proof.
  intros H1 H2 Hm.
  destruct (pending_records_exist account_name _ _ Hm) as (recs & Hr).
  exists recs. split; [|exact Hr].
  rewrite (get_all_instance_events_after_helpers _ _ _ _ _ _ H1 H2).
  apply non_ok_events_inr in Hr. rewrite Hr. reflexivity.
Qed.

(** C3 (as amended).  For every status entry with events, the instance
    whose tags and region fill the emitted dictionaries is found by a scan
    of the whole instance list that keeps the last instance whose id equals
    the entry's id. *)
Theorem get_all_instance_events_takes_last_match (account_name : string)
    (s0 s1 s2 : state) (status_list : list InstanceStatus.t)
    (instances : list Instance.t) :
  __get_all_instance_status config account_name s0 = (inr status_list, s1) ->
  get_instances_for_account config account_name s1 = (inr instances, s2) ->
  all_matched instances status_list ->
  exists recs,
    get_all_instance_events config account_name s0 = (inr recs, s2) /\
    Forall2
      (fun p d =>
         exists i,
           last_match instances (fst p) i /\
           MaintenanceEvent.tags d = Instance.tags i /\
           MaintenanceEvent.region d = RegionInfo.name (Instance.region i))
      (pending status_list) recs.
Proof.
  intros H1 H2 Hm.
  destruct (get_all_instance_events_returns _ _ _ _ _ _ H1 H2 Hm)
    as (recs & Hrun & Hr).
  exists recs. split; [exact Hrun|].
  eapply Forall2_impl; [exact Hr|]. intros [s ev] d Hd. simpl in *.
  destruct (find_instance_cases instances s) as [(i & Hl & Hf) | [_ Hf]].
  - rewrite (event_record_found _ _ _ _ _ Hf) in Hd. injection Hd as <-.
    exists i. auto.
  - rewrite (event_record_not_found _ _ _ _ Hf) in Hd. discriminate.
Qed.

(** C6.  Each emitted dictionary carries its event's description, and its
    [completed] field is true exactly when that description contains
    [[Completed]]. *)
Theorem get_all_instance_events_completed (account_name : string)
    (s0 s1 s2 : state) (status_list : list InstanceStatus.t)
    (instances : list Instance.t) :
  __get_all_instance_status config account_name s0 = (inr status_list, s1) ->
  get_instances_for_account config account_name s1 = (inr instances, s2) ->
  all_matched instances status_list ->
  exists recs,
    get_all_instance_events config account_name s0 = (inr recs, s2) /\
    Forall2
      (fun p d =>
         MaintenanceEvent.descript d = Event.description (snd p) /\
         (MaintenanceEvent.completed d = true <->
          exists pre post,
            Event.description (snd p) =
            String.append pre (String.append "[Completed]" post)))
      (pending status_list) recs.
Proof.
  intros H1 H2 Hm.
  destruct (get_all_instance_events_returns _ _ _ _ _ _ H1 H2 Hm)
    as (recs & Hrun & Hr).
  exists recs. split; [exact Hrun|].
  eapply Forall2_impl; [exact Hr|]. intros [s ev] d Hd. simpl in *.
  destruct (find_instance_cases instances s) as [(i & Hl & Hf) | [_ Hf]].
  - rewrite (event_record_found _ _ _ _ _ Hf) in Hd. injection Hd as <-.
    simpl. split; [reflexivity | apply contains_spec].
  - rewrite (event_record_not_found _ _ _ _ Hf) in Hd. discriminate.
Qed.


(** C8 (as amended).  When a status entry with events has no instance with
    its id in the list, reading the tags of the placeholder [''] raises
    inside the [try]: the method raises
    [ASEException('Cannot get instance maintenance events')] and returns
    no dictionary at all. *)
Theorem get_all_instance_events_unmatched_entry_fails (account_name : string)
    (s0 s1 s2 : state) (status_list : list InstanceStatus.t)
    (instances : list Instance.t) (s : InstanceStatus.t) :
  __get_all_instance_status config account_name s0 = (inr status_list, s1) ->
  get_instances_for_account config account_name s1 = (inr instances, s2) ->
  In s status_list ->
  truthy (InstanceStatus.events s) = true ->
  no_match instances s ->
  get_all_instance_events config account_name s0 =
  (inl (ASEException "Cannot get instance maintenance events"), s2).
Proof.
  intros H1 H2 Hin Ht Hno.
  rewrite (get_all_instance_events_after_helpers _ _ _ _ _ _ H1 H2).
  destruct (non_ok_events account_name status_list instances)
    as [e|recs] eqn:Hn; [reflexivity|].
  exfalso. apply non_ok_events_inr in Hn.
  destruct (truthy_true_events _ Ht) as (ev & evs & Hev).
  assert (In (s, ev) (pending status_list)) as Hp.
  { clear -Hin Hev. induction status_list as [|s' rest IH]; [destruct Hin|].
    simpl. apply in_or_app. destruct Hin as [-> | Hin]; [left | right; auto].
    rewrite Hev. left. reflexivity. }
  destruct (Forall2_In_l _ _ _ _ Hn Hp) as (d & Hd). simpl in Hd.
  rewrite (event_record_not_found _ _ _ _ (find_instance_no_match _ _ Hno))
    in Hd.
  discriminate.
Qed.

End Events.

(** ** Runs against the scripted boto *)

Section Runs.



Lemma get_account_api_creds_no_match_witness :
  fst (get_account_api_creds Mock.prod "staging" (Mock.start Mock.healthy)) =
    inl (ASEException "Cannot obtain credentials for specified account") /\
  calls (snd (get_account_api_creds Mock.prod "staging"
                (Mock.start Mock.healthy))) = [].
Proof.
  apply (get_account_api_creds_no_match Mock.prod
           [ {[ "name" := "prod"; "key" := "K"; "secret" := "S" ]} ]
           "staging" (Mock.start Mock.healthy)).
  - vm_compute; reflexivity.
  - constructor; [|constructor].
    exists "prod". split; [vm_compute; reflexivity | vm_compute; discriminate].
Defined.

Lemma missing_aws_accounts_key_witness :
  get_all_aws_accounts ∅ (Mock.start Mock.healthy) =
    (inl (KeyError "aws_accounts"), Mock.start Mock.healthy) /\
  get_all_instances ∅ (Mock.start Mock.healthy) =
    (inl (ASEException "Cannot get all instances"), Mock.start Mock.healthy) /\
  get_all_elbs ∅ (Mock.start Mock.healthy) =
    (inl (ASEException "Cannot get all ELBs"), Mock.start Mock.healthy) /\
  get_all_security_groups ∅ (Mock.start Mock.healthy) =
    (inl (ASEException "Cannot get all security groups"),
     Mock.start Mock.healthy).
Proof.
  apply (missing_aws_accounts_key ∅ (Mock.start Mock.healthy)).
  vm_compute; reflexivity.
Defined.

(** C2.  The claim fails on [get_elbs_for_account]: its first connection
    and its region listing run before the [try].  When [boto.connect_ec2]
    raises, and when [get_all_regions] raises after the connection was
    made, the boto exception reaches the caller as it is, not as
    [ASEException('Cannot get ELBs for named account')]; on the same two
    inputs [get_instances_for_account], whose body is wholly inside its
    [try], raises its [ASEException]. *)
Theorem boto_exception_escapes_get_elbs_for_account :
  (new_calls (get_elbs_for_account Mock.prod "prod")
     (Mock.start Mock.connect_fails) = [(boto.ConnectEc2, boto.Raised)] /\
   fst (get_elbs_for_account Mock.prod "prod" (Mock.start Mock.connect_fails))
   = inl (SdkError "boto.exception") /\
   fst (get_instances_for_account Mock.prod "prod"
          (Mock.start Mock.connect_fails))
   = inl (ASEException "Cannot get instances for named account")) /\
  (new_calls (get_elbs_for_account Mock.prod "prod")
     (Mock.start Cases.regions_fail) =
     [(boto.ConnectEc2, boto.Returned); (boto.GetAllRegions, boto.Raised)] /\
   fst (get_elbs_for_account Mock.prod "prod" (Mock.start Cases.regions_fail))
   = inl (SdkError "boto.exception") /\
   fst (get_instances_for_account Mock.prod "prod"
          (Mock.start Cases.regions_fail))
   = inl (ASEException "Cannot get instances for named account")).
Proof. repeat split; vm_compute; reflexivity. Qed.

Lemma boto_failures_reach_caller_as_ASEException_witness :
  boto_raised connect_op (get_security_groups Mock.prod "prod")
    (Mock.start Mock.connect_fails) /\
  raises_ASE (get_security_groups Mock.prod "prod")
    (Mock.start Mock.connect_fails) "Cannot connect to ec2 region".
Proof.
  assert (boto_raised connect_op (get_security_groups Mock.prod "prod")
            (Mock.start Mock.connect_fails)) as H.
  { exists boto.ConnectEc2. split; [left; reflexivity|].
    vm_compute. left. reflexivity. }
  split; [exact H|].
  apply (boto_failures_reach_caller_as_ASEException Mock.prod "prod"
           (Mock.start Mock.connect_fails)).
  exact H.
Defined.

Lemma get_instances_for_account_no_partial_result_witness :
  new_calls (get_instances_for_account Mock.prod "prod")
    (Mock.start Mock.west_listing_fails) =
    [(boto.ConnectEc2, boto.Returned); (boto.GetAllRegions, boto.Returned);
     (boto.RegionConnect, boto.Returned); (boto.RegionConnect, boto.Returned);
     (boto.RegionConnect, boto.Returned);
     (boto.GetAllReservations, boto.Returned);
     (boto.GetAllReservations, boto.Raised)] /\
  fst (get_instances_for_account Mock.prod "prod"
         (Mock.start Mock.west_listing_fails)) =
    inl (ASEException "Cannot get instances for named account").
Proof.
  split; [vm_compute; reflexivity|].
  apply (get_instances_for_account_no_partial_result Mock.prod "prod"
           (Mock.start Mock.west_listing_fails)).
  vm_compute. auto 12.
Defined.

Lemma get_all_instances_is_concat_witness :
  exists s',
    get_all_instances Mock.prod_and_dev (Mock.start Mock.healthy) =
    (inr [Mock.web; Mock.db; Mock.web; Mock.db], s').
Proof.
  eexists.
  apply (get_all_instances_is_concat Mock.prod_and_dev
           [ {[ "name" := "prod"; "key" := "K"; "secret" := "S" ]};
             {[ "name" := "dev"; "key" := "K2"; "secret" := "S2" ]} ]
           ["prod"; "dev"] (Mock.start Mock.healthy)
           [[Mock.web; Mock.db]; [Mock.web; Mock.db]]).
  - vm_compute; reflexivity.
  - repeat constructor.
  - eapply runs_cons; [vm_compute; reflexivity|].
    eapply runs_cons; [vm_compute; reflexivity|].
    apply runs_nil.
Defined.

(** C3, counterexample.  The account lists [web] and then [web_again],
    both with id ["i-1"]; the dictionaries of status entry ["i-1"] carry
    the tags and region of [web_again], the last of the two, and not those
    of [web], the first. *)
Lemma get_all_instance_events_not_first_match :
  fst (get_instances_for_account Mock.prod "prod"
         (Mock.start Mock.duplicate_id)) = inr [Mock.web; Mock.web_again] /\
  fst (get_all_instance_events Mock.prod "prod"
         (Mock.start Mock.duplicate_id)) =
    inr [Mock.expected "i-1" Mock.reboot Mock.web_again;
         Mock.expected "i-1" Mock.retirement Mock.web_again] /\
  Mock.expected "i-1" Mock.reboot Mock.web_again <>
    Mock.expected "i-1" Mock.reboot Mock.web.
Proof.
  split; [vm_compute; reflexivity|].
  split; [vm_compute; reflexivity|].
  intros H. apply (f_equal MaintenanceEvent.region) in H.
  vm_compute in H. discriminate H.
Qed.

Lemma get_all_instance_events_takes_last_match_witness :
  exists recs,
    get_all_instance_events Mock.prod "prod" (Mock.start Mock.duplicate_id) =
    (inr recs,
     snd (get_instances_for_account Mock.prod "prod"
            (snd (__get_all_instance_status Mock.prod "prod"
                    (Mock.start Mock.duplicate_id))))) /\
    Forall2
      (fun p d =>
         exists i,
           last_match [Mock.web; Mock.web_again] (fst p) i /\
           MaintenanceEvent.tags d = Instance.tags i /\
           MaintenanceEvent.region d = RegionInfo.name (Instance.region i))
      (pending [Mock.two_events "i-1"]) recs.
Proof.
  apply (get_all_instance_events_takes_last_match Mock.prod "prod"
           (Mock.start Mock.duplicate_id)
           (snd (__get_all_instance_status Mock.prod "prod"
                   (Mock.start Mock.duplicate_id)))).
  - vm_compute; reflexivity.
  - vm_compute; reflexivity.
  - constructor; [|constructor]. intros _. left. reflexivity.
Defined.

Lemma get_all_instance_events_completed_witness :
  exists recs,
    get_all_instance_events Mock.prod "prod" (Mock.start Mock.healthy) =
    (inr recs,
     snd (get_instances_for_account Mock.prod "prod"
            (snd (__get_all_instance_status Mock.prod "prod"
                    (Mock.start Mock.healthy))))) /\
    Forall2
      (fun p d =>
         MaintenanceEvent.descript d = Event.description (snd p) /\
         (MaintenanceEvent.completed d = true <->
          exists pre post,
            Event.description (snd p) =
            String.append pre (String.append "[Completed]" post)))
      (pending [Mock.two_events "i-1"]) recs.
Proof.
  apply (get_all_instance_events_completed Mock.prod "prod"
           (Mock.start Mock.healthy)
           (snd (__get_all_instance_status Mock.prod "prod"
                   (Mock.start Mock.healthy)))
           _ _ [Mock.web; Mock.db]).
  - vm_compute; reflexivity.
  - vm_compute; reflexivity.
  - constructor; [|constructor]. intros _. left. reflexivity.
Defined.



(** C8, counterexample.  The status entry names ["i-9"], with two events;
    the account lists ["i-1"] and ["i-2"] only.  No dictionary is returned:
    the method raises. *)
Lemma get_all_instance_events_orphan_status_raises :
  fst (__get_all_instance_status Mock.prod "prod"
         (Mock.start Mock.orphan_status)) = inr [Mock.two_events "i-9"] /\
  fst (get_instances_for_account Mock.prod "prod"
         (Mock.start Mock.orphan_status)) = inr [Mock.web; Mock.db] /\
  fst (get_all_instance_events Mock.prod "prod"
         (Mock.start Mock.orphan_status)) =
    inl (ASEException "Cannot get instance maintenance events").
Proof. repeat split; vm_compute; reflexivity. Qed.

Lemma get_all_instance_events_unmatched_entry_fails_witness :
  get_all_instance_events Mock.prod "prod" (Mock.start Mock.orphan_status) =
  (inl (ASEException "Cannot get instance maintenance events"),
   snd (get_instances_for_account Mock.prod "prod"
          (snd (__get_all_instance_status Mock.prod "prod"
                  (Mock.start Mock.orphan_status))))).
Proof.
  apply (get_all_instance_events_unmatched_entry_fails Mock.prod "prod"
           (Mock.start Mock.orphan_status)
           (snd (__get_all_instance_status Mock.prod "prod"
                   (Mock.start Mock.orphan_status)))
           _ [Mock.two_events "i-9"] [Mock.web; Mock.db]
           (Mock.two_events "i-9")).
  - vm_compute; reflexivity.
  - vm_compute; reflexivity.
  - left. reflexivity.
  - reflexivity.
  - repeat constructor; vm_compute; discriminate.
Defined.

End Runs.

(** * Further properties of the module *)

(** ** Credential lookup, continued *)

Section MoreCredentials.
Context {sdk : boto.Sdk}.
Variable config : gmap string (list (gmap string string)).

Lemma scan_accounts_input_case (accounts : list (gmap string string))
    (a b : string) :
  lower a = lower b -> scan_accounts accounts a = scan_accounts accounts b.
Proof.
  intros H. induction accounts as [|account rest IH]; simpl; [reflexivity|].
  rewrite H, IH. reflexivity.
Qed.

Lemma get_account_api_creds_input_case_eq (a b : string) :
  lower a = lower b ->
  get_account_api_creds config a = get_account_api_creds config b.
Proof.
  intros H. unfold get_account_api_creds.
  destruct (getitem config "aws_accounts") as [e|accounts]; simpl;
    [reflexivity|].
  rewrite (scan_accounts_input_case accounts a b H). reflexivity.
Qed.

(** X1.  The requested name is used through its lower-casing only: two
    names that differ in letter case at most give the same credentials or
    the same exception, and the same outcome of every per-account listing
    method. *)
Theorem account_name_case_is_ignored (a b : string) (s : state) :
  lower a = lower b ->
  get_account_api_creds config a s = get_account_api_creds config b s /\
  get_instances_for_account config a s = get_instances_for_account config b s /\
  get_elbs_for_account config a s = get_elbs_for_account config b s /\
  get_security_groups config a s = get_security_groups config b s.
Proof.
  intros H.
  unfold get_instances_for_account, get_elbs_for_account,
    get_security_groups, __ec2_connect_all_regions.
  rewrite (get_account_api_creds_input_case_eq a b H). auto.
Qed.

Lemma scan_accounts_inr (accounts : list (gmap string string))
    (account_name : string) (creds : gmap string string) :
  scan_accounts accounts account_name = inr creds ->
  exists pre account post key secret,
    accounts = pre ++ account :: post /\
    Forall (fun a => exists n, a !! "name" = Some n /\
                               n <> lower account_name) pre /\
    account !! "name" = Some (lower account_name) /\
    account !! "key" = Some key /\
    account !! "secret" = Some secret /\
    creds = {[ "access_key" := key; "secret_key" := secret ]}.
Proof.
  induction accounts as [|account rest IH]; simpl; [discriminate|].
  unfold getitem at 1.
  destruct (account !! "name") as [n|] eqn:Hn; simpl; [|discriminate].
  destruct (String.eqb_spec n (lower account_name)) as [->|Hne].
  - unfold getitem.
    destruct (account !! "key") as [key|] eqn:Hk; simpl; [|discriminate].
    destruct (account !! "secret") as [secret|] eqn:Hs; simpl;
      [|discriminate].
    intros [= <-]. exists [], account, rest, key, secret.
    split; [reflexivity|]. split; [constructor|]. auto.
  - intros H. destruct (IH H) as (pre & acc & post & key & secret & -> & Hpre & Hrest).
    exists (account :: pre), acc, post, key, secret.
    split; [reflexivity|]. split; [|exact Hrest].
    constructor; [eauto | exact Hpre].
Qed.

(** X2.  Whatever [get_account_api_creds] returns comes from the
    configuration: from the first entry stored under the lower-cased
    requested name, with exactly the keys [access_key] and [secret_key]. *)
Theorem get_account_api_creds_returns_first_entry (account_name : string)
    (s : state) (creds : gmap string string) :
  fst (get_account_api_creds config account_name s) = inr creds ->
  exists pre account post key secret,
    config !! "aws_accounts" = Some (pre ++ account :: post) /\
    Forall (fun a => exists n, a !! "name" = Some n /\
                               n <> lower account_name) pre /\
    account !! "name" = Some (lower account_name) /\
    account !! "key" = Some key /\
    account !! "secret" = Some secret /\
    creds = {[ "access_key" := key; "secret_key" := secret ]}.
Proof.
  unfold get_account_api_creds, lift, getitem. simpl.
  destruct (config !! "aws_accounts") as [accounts|]; simpl; [|discriminate].
  intros H. apply scan_accounts_inr in H.
  destruct H as (pre & account & post & key & secret & -> & H).
  exists pre, account, post, key, secret. split; [reflexivity | exact H].
Qed.

(** X3.  A malformed entry stops the scan with a bare [KeyError]: an entry
    without ['name'] met before any match, or the matching entry without
    ['key'] or without ['secret']. *)
Theorem get_account_api_creds_malformed_entry
    (pre post : list (gmap string string)) (account : gmap string string)
    (account_name : string) (s : state) :
  config !! "aws_accounts" = Some (pre ++ account :: post) ->
  Forall (fun a => exists n, a !! "name" = Some n /\
                             n <> lower account_name) pre ->
  (account !! "name" = None ->
   get_account_api_creds config account_name s = (inl (KeyError "name"), s)) /\
  (account !! "name" = Some (lower account_name) ->
   account !! "key" = None ->
   get_account_api_creds config account_name s = (inl (KeyError "key"), s)) /\
  (account !! "name" = Some (lower account_name) ->
   is_Some (account !! "key") ->
   account !! "secret" = None ->
   get_account_api_creds config account_name s =
   (inl (KeyError "secret"), s)).
Proof.
  intros Hc Hpre.
  unfold get_account_api_creds, lift, getitem. rewrite Hc. simpl.
  rewrite (scan_accounts_skip _ _ _ Hpre). simpl. unfold getitem.
  split; [|split].
  - intros ->. reflexivity.
  - intros -> ->. simpl. rewrite String.eqb_refl. reflexivity.
  - intros -> [key ->] ->. simpl. rewrite String.eqb_refl. reflexivity.
Qed.

Lemma get_account_api_creds_miss (accounts : list (gmap string string))
    (account_name : string) (s : state) :
  config !! "aws_accounts" = Some accounts ->
  Forall (fun a => exists n, a !! "name" = Some n /\
                             n <> lower account_name) accounts ->
  get_account_api_creds config account_name s =
  (inl (ASEException "Cannot obtain credentials for specified account"), s).
Proof.
  intros Hc Hall. unfold get_account_api_creds, lift, getitem.
  rewrite Hc. simpl. rewrite (scan_accounts_miss _ _ Hall). reflexivity.
Qed.

Lemma per_account_methods_miss (accounts : list (gmap string string))
    (account_name : string) (s : state) :
  config !! "aws_accounts" = Some accounts ->
  Forall (fun a => exists n, a !! "name" = Some n /\
                             n <> lower account_name) accounts ->
  get_instances_for_account config account_name s =
    (inl (ASEException "Cannot get instances for named account"), s) /\
  get_elbs_for_account config account_name s =
    (inl (ASEException "Cannot obtain credentials for specified account"),
     s) /\
  get_security_groups config account_name s =
    (inl (ASEException "Cannot obtain credentials for specified account"),
     s) /\
  get_all_instance_events config account_name s =
    (inl (ASEException "Cannot obtain instance status"), s).
Proof.
  intros Hc Hall.
  pose proof (get_account_api_creds_miss _ _ s Hc Hall) as Hm.
  unfold get_all_instance_events, __get_all_instance_status,
    get_instances_for_account, get_elbs_for_account, get_security_groups,
    __ec2_connect_all_regions, try_except, bind.
  rewrite Hm. auto.
Qed.

(** X4.  For a name stored nowhere, each per-account method fails before
    boto is called, the state unchanged; the message depends on whether the
    lookup runs inside the method's [try]. *)
Theorem unknown_account_fails_before_boto
    (accounts : list (gmap string string)) (account_name : string)
    (s : state) :
  config !! "aws_accounts" = Some accounts ->
  Forall (fun a => exists n, a !! "name" = Some n /\
                             n <> lower account_name) accounts ->
  get_instances_for_account config account_name s =
    (inl (ASEException "Cannot get instances for named account"), s) /\
  get_elbs_for_account config account_name s =
    (inl (ASEException "Cannot obtain credentials for specified account"),
     s) /\
  get_security_groups config account_name s =
    (inl (ASEException "Cannot obtain credentials for specified account"),
     s) /\
  get_all_instance_events config account_name s =
    (inl (ASEException "Cannot obtain instance status"), s).
Proof. intros Hc Hall. exact (per_account_methods_miss _ _ s Hc Hall). Qed.

(** X5.  Without the ['aws_accounts'] key the per-account methods fail
    before boto is called: [get_account_api_creds], [get_elbs_for_account]
    and [get_security_groups] with the bare [KeyError],
    [get_instances_for_account] and [get_all_instance_events] with an
    [ASEException]. *)
Theorem missing_aws_accounts_key_per_account (account_name : string)
    (s : state) :
  config !! "aws_accounts" = None ->
  get_account_api_creds config account_name s =
    (inl (KeyError "aws_accounts"), s) /\
  get_elbs_for_account config account_name s =
    (inl (KeyError "aws_accounts"), s) /\
  get_security_groups config account_name s =
    (inl (KeyError "aws_accounts"), s) /\
  get_instances_for_account config account_name s =
    (inl (ASEException "Cannot get instances for named account"), s) /\
  get_all_instance_events config account_name s =
    (inl (ASEException "Cannot obtain instance status"), s).
Proof.
  intros Hc.
  unfold get_all_instance_events, __get_all_instance_status,
    get_instances_for_account, get_elbs_for_account, get_security_groups,
    __ec2_connect_all_regions, try_except, bind, get_account_api_creds,
    lift, getitem.
  rewrite Hc. auto 10.
Qed.

(** X6.  With an empty account list the three "all accounts" methods return
    the empty list and boto is not called. *)
Theorem no_accounts_no_results (s : state) :
  config !! "aws_accounts" = Some [] ->
  get_all_instances config s = (inr [], s) /\
  get_all_elbs config s = (inr [], s) /\
  get_all_security_groups config s = (inr [], s).
Proof.
  intros Hc.
  unfold get_all_instances, get_all_elbs, get_all_security_groups,
    try_except, over_all_accounts, bind, get_all_aws_accounts, lift, getitem.
  rewrite Hc. auto.
Qed.

End MoreCredentials.

(** ** Running the monad backwards *)

Section Inversion.
Context {sdk : boto.Sdk}.

Lemma bind_inr {A B} (m : M A) (k : A -> M B) s (b : B) s' :
  bind m k s = (inr b, s') ->
  exists a s1, m s = (inr a, s1) /\ k a s1 = (inr b, s').
Proof.
  unfold bind. destruct (m s) as [[e|a] s1]; [discriminate|]. eauto.
Qed.

Lemma try_except_inr {A} (m : M A) (msg : string) s (a : A) s' :
  try_except m msg s = (inr a, s') -> m s = (inr a, s').
Proof.
  unfold try_except. destruct (m s) as [[e|a'] s1]; [discriminate|].
  intros [= -> ->]. reflexivity.
Qed.

Lemma try_except_inl {A} (m : M A) (msg : string) s (e : pyexn) :
  fst (try_except m msg s) = inl e -> e = ASEException msg.
Proof.
  unfold try_except. destruct (m s) as [[e'|a] s1]; simpl; congruence.
Qed.

Lemma try_except_raises {A} (m : M A) (msg : string) s (e : pyexn) s' :
  try_except m msg s = (inl e, s') -> e = ASEException msg.
Proof. intros H. apply (try_except_inl m msg s). rewrite H. reflexivity. Qed.

Lemma lift_inr {A} (r : res A) s (a : A) s' :
  lift r s = (inr a, s') -> r = inr a /\ s' = s.
Proof. unfold lift. intros [= -> ->]. auto. Qed.

Lemma ret_inr {A} (a b : A) s s' : ret a s = (inr b, s') -> b = a /\ s' = s.
Proof. unfold ret. intros [= -> ->]. auto. Qed.

Lemma call_inr {A} (o : boto.op) f s (a : A) s' :
  call o f s = (inr a, s') -> calls s' = calls s ++ [(o, boto.Returned)].
Proof.
  unfold call. destruct (f (world s)) as [[e|a'] w]; [discriminate|].
  intros [= _ <-]. reflexivity.
Qed.

(** [for x in xs: l.append(x)] extends [l] by [xs]. *)
Lemma append_all_app {A} (l xs : list A) : append_all l xs = l ++ xs.
Proof.
  unfold append_all. revert l.
  induction xs as [|x xs IH]; intros l; simpl.
  - rewrite app_nil_r. reflexivity.
  - rewrite IH, <- app_assoc. reflexivity.
Qed.

(** A loop whose body is one boto call logs one returned call per pass. *)
Lemma loop_log {X V B} (o : boto.op)
    (f : X -> boto.World -> (boto.SdkExn + V) * boto.World)
    (g : B -> V -> B) (xs : list X) (acc : B) s (out : B) s' :
  for_each xs (fun acc x => v <- call o (f x) ;; ret (g acc v)) acc s =
    (inr out, s') ->
  calls s' = calls s ++ repeat (o, boto.Returned) (length xs).
Proof.
  revert acc s. induction xs as [|x xs IH]; intros acc s; simpl.
  - intros H. apply ret_inr in H as [_ ->]. rewrite app_nil_r. reflexivity.
  - intros H. apply bind_inr in H as (acc1 & s1 & H1 & H2).
    apply bind_inr in H1 as (v & s0 & Hcall & Hret).
    apply ret_inr in Hret as [_ ->]. apply call_inr in Hcall.
    rewrite (IH _ _ H2), Hcall, <- app_assoc. reflexivity.
Qed.

Lemma connect_loop_length {X V}
    (f : X -> boto.World -> (boto.SdkExn + V) * boto.World)
    (xs : list X) (acc : list V) s (out : list V) s' :
  for_each xs
    (fun acc x => v <- call boto.RegionConnect (f x) ;; ret (acc ++ [v]))
    acc s = (inr out, s') ->
  length out = length acc + length xs.
Proof.
  revert acc s. induction xs as [|x xs IH]; intros acc s; simpl.
  - intros H. apply ret_inr in H as [-> _]. lia.
  - intros H. apply bind_inr in H as (acc1 & s1 & H1 & H2).
    apply bind_inr in H1 as (v & s0 & _ & Hret).
    apply ret_inr in Hret as [-> _].
    rewrite (IH _ _ H2), length_app. simpl. lia.
Qed.

(** A loop stops at the first pass that raises. *)
Lemma for_each_raises {X B} (xs : list X) (body : B -> X -> M B) (x : X) :
  In x xs ->
  (forall acc s, exists e s', body acc x s = (inl e, s')) ->
  forall acc s, exists e s', for_each xs body acc s = (inl e, s').
Proof.
  intros Hin Hx. induction xs as [|y xs IH]; [destruct Hin|].
  intros acc s. simpl. unfold bind.
  destruct Hin as [-> | Hin].
  - destruct (Hx acc s) as (e & s' & ->). eauto.
  - destruct (body acc y s) as [[e|acc1] s1]; [eauto|]. apply IH. exact Hin.
Qed.

End Inversion.

(** ** All accounts, continued *)

Section MoreAccounts.
Context {sdk : boto.Sdk}.
Variable config : gmap string (list (gmap string string)).

(** X7.  Whatever goes wrong, in the configuration or in boto, five
    methods raise nothing but [ASEException]: the four whose body is one
    [try] raise their own message only, and [get_all_instance_events]
    raises its own or that of one of its two helpers. *)
Theorem only_ASEException_escapes (account_name : string) (s : state)
    (e : pyexn) :
  (fst (get_instances_for_account config account_name s) = inl e ->
   e = ASEException "Cannot get instances for named account") /\
  (fst (get_all_instances config s) = inl e ->
   e = ASEException "Cannot get all instances") /\
  (fst (get_all_elbs config s) = inl e ->
   e = ASEException "Cannot get all ELBs") /\
  (fst (get_all_security_groups config s) = inl e ->
   e = ASEException "Cannot get all security groups") /\
  (fst (get_all_instance_events config account_name s) = inl e ->
   e = ASEException "Cannot obtain instance status" \/
   e = ASEException "Cannot get instances for named account" \/
   e = ASEException "Cannot get instance maintenance events").
Proof.
  repeat match goal with |- _ /\ _ => split end;
    try apply try_except_inl.
  unfold get_all_instance_events, bind.
  destruct (__get_all_instance_status config account_name s)
    as [[e1|status_list] s1] eqn:H1.
  - simpl. intros [= <-]. left.
    exact (try_except_raises _ _ _ _ _ H1).
  - destruct (get_instances_for_account config account_name s1)
      as [[e2|instances] s2] eqn:H2.
    + simpl. intros [= <-]. right. left.
      exact (try_except_raises _ _ _ _ _ H2).
    + intros H. right. right. exact (try_except_inl _ _ _ _ H).
Qed.

Lemma stored_names_differ (accounts : list (gmap string string))
    (names : list string) (lowered : string) :
  Forall2 (fun a n => a !! "name" = Some n) accounts names ->
  ~ In lowered names ->
  Forall (fun a => exists n, a !! "name" = Some n /\ n <> lowered) accounts.
Proof.
  induction 1 as [|a n accounts names Hn _ IH]; intros Hnot; constructor.
  - exists n. split; [exact Hn|]. intros ->. apply Hnot. left. reflexivity.
  - apply IH. intros Hin. apply Hnot. right. exact Hin.
Qed.

Lemma over_all_accounts_raises {A} (f : string -> M (list A))
    (accounts : list (gmap string string)) (names : list string)
    (n : string) (s : state) :
  config !! "aws_accounts" = Some accounts ->
  Forall2 (fun a n => a !! "name" = Some n) accounts names ->
  In n names ->
  (forall s, exists e s', f n s = (inl e, s')) ->
  exists e s', over_all_accounts config f s = (inl e, s').
Proof.
  intros Hc Hn Hin Hf.
  unfold over_all_accounts, get_all_aws_accounts, bind, lift, getitem.
  rewrite Hc, (names_of_Forall2 _ _ Hn).
  apply (for_each_raises names _ n Hin).
  intros acc s0. unfold bind. destruct (Hf s0) as (e & s' & ->). eauto.
Qed.

(** X8.  The "all accounts" methods pass each stored name back through the
    lookup, which lower-cases it.  A stored name whose lower-casing is not
    itself a stored name can therefore never be resolved, and its presence
    makes all three methods fail, whatever boto does. *)
Theorem stored_mixed_case_name_breaks_all_accounts
    (accounts : list (gmap string string)) (names : list string)
    (n : string) (s : state) :
  config !! "aws_accounts" = Some accounts ->
  Forall2 (fun a n => a !! "name" = Some n) accounts names ->
  In n names ->
  ~ In (lower n) names ->
  fst (get_all_instances config s) =
    inl (ASEException "Cannot get all instances") /\
  fst (get_all_elbs config s) = inl (ASEException "Cannot get all ELBs") /\
  fst (get_all_security_groups config s) =
    inl (ASEException "Cannot get all security groups").
Proof.
  intros Hc Hn Hin Hnot.
  pose proof (stored_names_differ _ _ _ Hn Hnot) as Hmiss.
  assert (forall A (f : string -> M (list A)) msg,
            (forall s, exists e s', f n s = (inl e, s')) ->
            fst (try_except (over_all_accounts config f) msg s) =
            inl (ASEException msg)) as Hall.
  { intros A f msg Hf.
    destruct (over_all_accounts_raises f _ _ n s Hc Hn Hin Hf)
      as (e & s' & He).
    unfold try_except. rewrite He. reflexivity. }
  repeat split; apply Hall; intros s0;
    destruct (per_account_methods_miss config _ n s0 Hc Hmiss)
      as (H1 & H2 & H3 & _); eauto.
Qed.

Lemma for_each_after_runs {A} (f : string -> M (list A))
    (pre rest : list string) s (rs : list (list A)) s1 (results : list A) :
  runs_in_order f pre s rs s1 ->
  for_each (pre ++ rest) (fun results a => r <- f a ;; ret (results ++ r))
    results s =
  for_each rest (fun results a => r <- f a ;; ret (results ++ r))
    (results ++ concat rs) s1.
Proof.
  intros H. revert results.
  induction H as [s|a names s r s1 rs s' Hf _ IH]; intros results; simpl.
  - rewrite app_nil_r. reflexivity.
  - unfold bind at 1. unfold bind at 1. rewrite Hf. unfold ret at 1.
    rewrite IH, app_assoc. reflexivity.
Qed.

(** X9.  [get_all_instances] stops at the first account that fails: the
    lists of the accounts before it are dropped, the caller sees
    [ASEException('Cannot get all instances')], and the state is the one
    the failing account left, the accounts after it not being contacted. *)
Theorem get_all_instances_stops_at_first_failure
    (accounts : list (gmap string string)) (pre post : list string)
    (a : string) (s s1 s2 : state) (rs : list (list Instance.t))
    (e : pyexn) :
  config !! "aws_accounts" = Some accounts ->
  Forall2 (fun a n => a !! "name" = Some n) accounts (pre ++ a :: post) ->
  runs_in_order (get_instances_for_account config) pre s rs s1 ->
  get_instances_for_account config a s1 = (inl e, s2) ->
  get_all_instances config s =
  (inl (ASEException "Cannot get all instances"), s2).
Proof.
  intros Hc Hn Hr Hf.
  unfold get_all_instances, try_except, over_all_accounts,
    get_all_aws_accounts, bind, lift, getitem.
  rewrite Hc, (names_of_Forall2 _ _ Hn).
  pose proof (for_each_after_runs _ pre (a :: post) s rs s1 [] Hr) as E.
  unfold bind in E. rewrite E. simpl. unfold bind. rewrite Hf. reflexivity.
Qed.

(** X10.  When the per-account method returns for every configured
    account, run one after the other in configuration order,
    [get_all_elbs] and [get_all_security_groups] return the concatenation
    of those lists in that order. *)
Theorem get_all_elbs_and_security_groups_are_concat
    (accounts : list (gmap string string)) (names : list string)
    (s : state) :
  config !! "aws_accounts" = Some accounts ->
  Forall2 (fun a n => a !! "name" = Some n) accounts names ->
  (forall rs s',
     runs_in_order (get_elbs_for_account config) names s rs s' ->
     get_all_elbs config s = (inr (concat rs), s')) /\
  (forall rs s',
     runs_in_order (get_security_groups config) names s rs s' ->
     get_all_security_groups config s = (inr (concat rs), s')).
Proof.
  intros Hc Hn. split; intros rs s' Hr;
    unfold get_all_elbs, get_all_security_groups, try_except;
    rewrite (over_all_accounts_runs_in_order _ _ _ _ _ _ _ Hc Hn Hr);
    reflexivity.
Qed.

End MoreAccounts.

(** ** Regions *)

Section Regions.
Context {sdk : boto.Sdk}.
Variable config : gmap string (list (gmap string string)).

(** A loop that extends its list by what [f] returns for each element
    returns the lists in element order, one after the other. *)
Lemma for_each_each_in_order {X A} (f : X -> M (list A))
    (body : list A -> X -> M (list A)) (xs : list X) s
    (rss : list (list A)) s' (acc : list A) :
  (forall acc x s,
     body acc x s = (l <- f x ;; ret (append_all acc l)) s) ->
  each_in_order f xs s rss s' ->
  for_each xs body acc s = (inr (acc ++ concat rss), s').
Proof.
  intros Hbody H. revert acc.
  induction H as [s|x xs s r s1 rs s' Hf _ IH]; intros acc; simpl.
  - rewrite app_nil_r. reflexivity.
  - unfold bind at 1. rewrite Hbody. unfold bind at 1. rewrite Hf.
    unfold ret at 1. rewrite IH, append_all_app, app_assoc. reflexivity.
Qed.

(** X11.  [get_instances_for_account] lists the regions in the order the
    connections were made, and returns the instances of all reservations in
    that order: region by region, reservation by reservation. *)
Theorem get_instances_for_account_region_order (account_name : string)
    (s s1 s2 : state) (ec2s : list boto.EC2Connection)
    (rss : list (list Reservation.t)) :
  __ec2_connect_all_regions config account_name s = (inr ec2s, s1) ->
  each_in_order
    (fun ec2 =>
       call boto.GetAllReservations (boto.get_all_reservations ec2))
    ec2s s1 rss s2 ->
  get_instances_for_account config account_name s =
  (inr (flat_map Reservation.instances (concat rss)), s2).
Proof.
  intros Hc Hl. unfold get_instances_for_account, try_except.
  unfold bind at 1. rewrite Hc. unfold bind at 1.
  rewrite (for_each_each_in_order _
             (fun res_list ec2 =>
                reservations <- call boto.GetAllReservations
                                  (boto.get_all_reservations ec2) ;;
                ret (append_all res_list reservations))
             _ _ _ _ [] (fun _ _ _ => eq_refl) Hl).
  reflexivity.
Qed.

(** X12.  [get_security_groups] returns the groups of every region, in the
    order the connections were made. *)
Theorem get_security_groups_region_order (account_name : string)
    (s s1 s2 : state) (ec2s : list boto.EC2Connection)
    (gss : list (list boto.SecurityGroup)) :
  __ec2_connect_all_regions config account_name s = (inr ec2s, s1) ->
  each_in_order
    (fun e =>
       call boto.GetAllSecurityGroups (boto.get_all_security_groups e))
    ec2s s1 gss s2 ->
  get_security_groups config account_name s = (inr (concat gss), s2).
Proof.
  intros Hc Hl. unfold get_security_groups.
  unfold bind at 1. rewrite Hc. unfold try_except.
  rewrite (for_each_each_in_order _
             (fun sgroups e =>
                l <- call boto.GetAllSecurityGroups
                       (boto.get_all_security_groups e) ;;
                ret (append_all sgroups l))
             _ _ _ _ [] (fun _ _ _ => eq_refl) Hl).
  reflexivity.
Qed.

Lemma elb_loop_body (access_key secret_key : string)
    (elb_hosts : list boto.LoadBalancer) (region : RegionInfo.t) s :
  (elb <- call boto.ElbConnectToRegion
            (boto.elb_connect_to_region (RegionInfo.name region)
               access_key secret_key) ;;
   match elb with
   | None => raise (AttributeError "get_all_load_balancers")
   | Some elb =>
       lbs <- call boto.GetAllLoadBalancers
                (boto.get_all_load_balancers elb) ;;
       ret (append_all elb_hosts lbs)
   end) s =
  (l <- elbs_of_region access_key secret_key region ;;
   ret (append_all elb_hosts l)) s.
Proof.
  unfold elbs_of_region, bind.
  destruct (call boto.ElbConnectToRegion _ s) as [[e|[elb|]] s0];
    reflexivity.
Qed.

(** X13.  [get_elbs_for_account] asks boto for the regions once, and
    returns the load balancers of every region in the order boto listed the
    regions. *)
Theorem get_elbs_for_account_region_order
    (account_name access_key secret_key : string) (s s1 s2 s3 : state)
    (ec2 : boto.EC2Connection) (regions : list RegionInfo.t)
    (lbss : list (list boto.LoadBalancer)) :
  get_account_api_creds config account_name s =
    (inr {[ "access_key" := access_key; "secret_key" := secret_key ]}, s) ->
  call boto.ConnectEc2 (boto.connect_ec2 access_key secret_key) s =
    (inr ec2, s1) ->
  call boto.GetAllRegions (boto.get_all_regions ec2) s1 = (inr regions, s2) ->
  each_in_order (elbs_of_region access_key secret_key) regions s2 lbss s3 ->
  get_elbs_for_account config account_name s = (inr (concat lbss), s3).
Proof.
  intros Hcreds Hconn Hreg Hl. unfold get_elbs_for_account.
  unfold bind at 1. rewrite Hcreds.
  unfold bind at 1. unfold lift at 1, getitem at 1.
  rewrite lookup_insert_eq.
  unfold bind at 1. unfold lift at 1, getitem at 1.
  rewrite lookup_insert_ne, lookup_singleton_eq by discriminate.
  unfold bind at 1. rewrite Hconn. unfold bind at 1. rewrite Hreg.
  unfold try_except.
  rewrite (for_each_each_in_order _
             (fun elb_hosts region =>
                elb <- call boto.ElbConnectToRegion
                         (boto.elb_connect_to_region (RegionInfo.name region)
                            access_key secret_key) ;;
                match elb with
                | None => raise (AttributeError "get_all_load_balancers")
                | Some elb =>
                    lbs <- call boto.GetAllLoadBalancers
                             (boto.get_all_load_balancers elb) ;;
                    ret (append_all elb_hosts lbs)
                end)
             _ _ _ _ [] (elb_loop_body access_key secret_key) Hl).
  reflexivity.
Qed.

(** *** The calls of a successful run *)

Lemma connect_log (account_name : string) (s s' : state)
    (ec2s : list boto.EC2Connection) :
  __ec2_connect_all_regions config account_name s = (inr ec2s, s') ->
  calls s' =
  calls s ++ (boto.ConnectEc2, boto.Returned)
          :: (boto.GetAllRegions, boto.Returned)
          :: repeat (boto.RegionConnect, boto.Returned) (length ec2s).
Proof.
  unfold __ec2_connect_all_regions, get_account_api_creds. intros H.
  apply bind_inr in H as (creds & s0 & Hl & H). apply lift_inr in Hl as [_ ->].
  apply bind_inr in H as (ak & s0 & Hl & H). apply lift_inr in Hl as [_ ->].
  apply bind_inr in H as (sk & s0 & Hl & H). apply lift_inr in Hl as [_ ->].
  apply try_except_inr in H.
  apply bind_inr in H as (ec2 & s1 & H1 & H). apply call_inr in H1.
  apply bind_inr in H as (regions & s2 & H2 & H). apply call_inr in H2.
  pose proof (connect_loop_length _ _ _ _ _ _ H) as Hlen.
  apply loop_log in H. simpl in Hlen. rewrite H, H2, H1, Hlen.
  rewrite <- !app_assoc. reflexivity.
Qed.

(** X14.  A run of [get_instances_for_account] or [get_security_groups]
    that returns has made [2 + 2n] calls for some number [n] of regions:
    one connection, one region listing, then all [n] region connections,
    and only then the [n] listings, one per region. *)
Theorem successful_run_is_one_fan_out (account_name : string) (s : state) :
  (forall l s',
     get_instances_for_account config account_name s = (inr l, s') ->
     exists n, calls s' = calls s ++ fan_out boto.GetAllReservations n) /\
  (forall l s',
     get_security_groups config account_name s = (inr l, s') ->
     exists n, calls s' = calls s ++ fan_out boto.GetAllSecurityGroups n).
Proof.
  split; intros l s' H.
  - unfold get_instances_for_account in H. apply try_except_inr in H.
    apply bind_inr in H as (ec2s & s1 & Hc & H).
    apply bind_inr in H as (res_list & s2 & Hl & Hret).
    apply ret_inr in Hret as [_ ->].
    apply connect_log in Hc. apply loop_log in Hl.
    exists (length ec2s). rewrite Hl, Hc. unfold fan_out.
    rewrite <- app_assoc. reflexivity.
  - unfold get_security_groups in H.
    apply bind_inr in H as (ec2s & s1 & Hc & H).
    apply try_except_inr in H.
    apply connect_log in Hc. apply loop_log in H.
    exists (length ec2s). rewrite H, Hc. unfold fan_out.
    rewrite <- app_assoc. reflexivity.
Qed.

End Regions.

(** ** Maintenance events, continued *)

Section MoreEvents.
Context {sdk : boto.Sdk}.
Variable config : gmap string (list (gmap string string)).

Lemma pending_nil (status_list : list InstanceStatus.t) :
  Forall (fun s => truthy (InstanceStatus.events s) = false) status_list ->
  pending status_list = [].
Proof.
  induction 1 as [|s rest Hs _ IH]; simpl; [reflexivity|].
  rewrite (truthy_false_events _ Hs), IH. reflexivity.
Qed.

(** X15.  In the normal case, where no status entry carries events,
    [get_all_instance_events] returns the empty list, whatever the instance
    list holds. *)
Theorem get_all_instance_events_nothing_pending (account_name : string)
    (s0 s1 s2 : state) (status_list : list InstanceStatus.t)
    (instances : list Instance.t) :
  __get_all_instance_status config account_name s0 = (inr status_list, s1) ->
  get_instances_for_account config account_name s1 = (inr instances, s2) ->
  Forall (fun s => truthy (InstanceStatus.events s) = false) status_list ->
  get_all_instance_events config account_name s0 = (inr [], s2).
Proof.
  intros H1 H2 Hnone.
  rewrite (get_all_instance_events_after_helpers _ _ _ _ _ _ _ H1 H2).
  assert (non_ok_events (sdk := sdk) account_name status_list instances
          = inr []) as ->; [|reflexivity].
  apply non_ok_events_inr. rewrite (pending_nil _ Hnone). constructor.
Qed.

(** X16.  A run that returns gives one dictionary per event of the status
    list, in the order of the entries and of their events.  Each carries
    the id of its entry, the code and the two timestamps of its event, and
    as [account] the name as the caller wrote it, not as it is stored. *)
Theorem get_all_instance_events_one_record_per_event (account_name : string)
    (s0 s1 s2 : state) (status_list : list InstanceStatus.t)
    (instances : list Instance.t) (recs : list MaintenanceEvent.t) :
  __get_all_instance_status config account_name s0 = (inr status_list, s1) ->
  get_instances_for_account config account_name s1 = (inr instances, s2) ->
  fst (get_all_instance_events config account_name s0) = inr recs ->
  length recs = length (pending status_list) /\
  Forall2
    (fun p d =>
       MaintenanceEvent.instance_id d = InstanceStatus.id (fst p) /\
       MaintenanceEvent.account d = account_name /\
       MaintenanceEvent.event_code d = Event.code (snd p) /\
       MaintenanceEvent.time_nb4 d = Event.not_before (snd p) /\
       MaintenanceEvent.time_nafter d = Event.not_after (snd p))
    (pending status_list) recs.
Proof.
  intros H1 H2.
  rewrite (get_all_instance_events_after_helpers _ _ _ _ _ _ _ H1 H2).
  simpl.
  destruct (non_ok_events account_name status_list instances)
    as [e|recs'] eqn:Hn; [discriminate|].
  intros [= ->]. apply non_ok_events_inr in Hn.
  split; [symmetry; exact (Forall2_length _ _ _ Hn)|].
  eapply Forall2_impl; [exact Hn|]. intros [s ev] d Hd. simpl in *.
  destruct (find_instance_cases instances s) as [(i & _ & Hf) | [_ Hf]].
  - rewrite (event_record_found _ _ _ _ _ Hf) in Hd. injection Hd as <-.
    simpl. auto.
  - rewrite (event_record_not_found _ _ _ _ Hf) in Hd. discriminate.
Qed.

Lemma in_pending (status_list : list InstanceStatus.t) (s : InstanceStatus.t)
    (ev : Event.t) (evs : list Event.t) :
  In s status_list ->
  default [] (InstanceStatus.events s) = ev :: evs ->
  In (s, ev) (pending status_list).
Proof.
  intros Hin Hev. induction status_list as [|s' rest IH]; [destruct Hin|].
  simpl. apply in_or_app. destruct Hin as [-> | Hin]; [left | right; auto].
  rewrite Hev. left. reflexivity.
Qed.

(** X17.  Once both helpers have returned, [get_all_instance_events]
    returns a list exactly when every status entry that carries events has
    an instance with its id in the instance list. *)
Theorem get_all_instance_events_returns_iff_all_matched
    (account_name : string) (s0 s1 s2 : state)
    (status_list : list InstanceStatus.t) (instances : list Instance.t) :
  __get_all_instance_status config account_name s0 = (inr status_list, s1) ->
  get_instances_for_account config account_name s1 = (inr instances, s2) ->
  (exists recs,
     get_all_instance_events config account_name s0 = (inr recs, s2)) <->
  all_matched instances status_list.
Proof.
  intros H1 H2. split.
  - intros (recs & Hrun).
    rewrite (get_all_instance_events_after_helpers _ _ _ _ _ _ _ H1 H2)
      in Hrun.
    destruct (non_ok_events account_name status_list instances)
      as [e|recs'] eqn:Hn; [discriminate|].
    apply non_ok_events_inr in Hn.
    apply Forall_forall. intros s Hin Ht. apply list_elem_of_In in Hin.
    destruct (find_instance_cases instances s)
      as [(i & (pre & post & -> & Hi & _) & _) | [_ Hf]].
    + apply Exists_app. right. left. exact Hi.
    + exfalso. destruct (truthy_true_events _ Ht) as (ev & evs & Hev).
      pose proof (in_pending _ _ _ _ Hin Hev) as Hp.
      destruct (Forall2_In_l _ _ _ _ Hn Hp) as (d & Hd). simpl in Hd.
      rewrite (event_record_not_found _ _ _ _ Hf) in Hd. discriminate.
  - intros Hm.
    destruct (get_all_instance_events_returns _ _ _ _ _ _ _ H1 H2 Hm)
      as (recs & Hrun & _).
    eauto.
Qed.

(** X18.  [get_all_instance_events] reuses no connection: a run that
    returns has fanned out over the regions twice, first for the status
    entries and then for the instances. *)
Theorem get_all_instance_events_fans_out_twice (account_name : string)
    (s s' : state) (recs : list MaintenanceEvent.t) :
  get_all_instance_events config account_name s = (inr recs, s') ->
  exists n1 n2,
    calls s' =
    calls s ++ fan_out boto.GetAllInstanceStatus n1
            ++ fan_out boto.GetAllReservations n2.
Proof.
  unfold get_all_instance_events. intros H.
  apply bind_inr in H as (status_list & s1 & Hs & H).
  apply bind_inr in H as (instances & s2 & Hi & H).
  apply try_except_inr in H. apply lift_inr in H as [_ ->].
  unfold __get_all_instance_status in Hs. apply try_except_inr in Hs.
  apply bind_inr in Hs as (ec2s & t1 & Hc & Hl).
  apply connect_log in Hc. apply loop_log in Hl.
  unfold get_instances_for_account in Hi. apply try_except_inr in Hi.
  apply bind_inr in Hi as (ec2s' & t2 & Hc' & Hi).
  apply bind_inr in Hi as (res_list & t3 & Hl' & Hret).
  apply ret_inr in Hret as [_ ->].
  apply connect_log in Hc'. apply loop_log in Hl'.
  exists (length ec2s), (length ec2s').
  rewrite Hl', Hc', Hl, Hc. unfold fan_out.
  repeat (rewrite <- app_assoc; simpl). reflexivity.
Qed.

End MoreEvents.

(** ** [ASEException.__str__] *)

Lemma repr_char_plain (c : ascii) :
  plain_char c = true ->
  repr_char single_quote c = String c EmptyString /\
  Ascii.eqb c single_quote = false.
Proof.
  destruct c as [[] [] [] [] [] [] [] []]; vm_compute;
    first [discriminate | split; reflexivity].
Qed.

Lemma repr_chars_plain (s : string) :
  plain s = true ->
  repr_chars single_quote s = s /\ has_char single_quote s = false.
Proof.
  induction s as [|c s IH]; simpl; [auto|].
  intros H. apply andb_true_iff in H as [Hc Hs].
  destruct (repr_char_plain c Hc) as [-> ->]. destruct (IH Hs) as [-> ->].
  auto.
Qed.

(** X19.  For a message of printable ASCII characters with no single quote
    and no backslash, which all messages of the module are, [str] of the
    exception is the message between single quotes. *)
Theorem ASEException_str_quotes_message (msg : string) :
  plain msg = true ->
  __str__ msg = String.append "'" (String.append msg "'").
Proof.
  intros H. destruct (repr_chars_plain msg H) as [Hr Hq].
  unfold __str__, repr. rewrite Hq. cbv zeta. cbn [andb]. rewrite Hr.
  reflexivity.
Qed.

(** ** Connections *)

Section Connections.
Context {sdk : boto.Sdk}.
Variable config : gmap string (list (gmap string string)).

Lemma for_each_snoc_each_in_order {X V} (f : X -> M V)
    (body : list V -> X -> M (list V)) (xs : list X) s (rs : list V) s'
    (acc : list V) :
  (forall acc x s, body acc x s = (v <- f x ;; ret (acc ++ [v])) s) ->
  each_in_order f xs s rs s' ->
  for_each xs body acc s = (inr (acc ++ rs), s').
Proof.
  intros Hbody H. revert acc.
  induction H as [s|x xs s r s1 rs s' Hf _ IH]; intros acc; simpl.
  - rewrite app_nil_r. reflexivity.
  - unfold bind at 1. rewrite Hbody. unfold bind at 1. rewrite Hf.
    unfold ret at 1. rewrite IH, <- app_assoc. reflexivity.
Qed.

(** X20.  [__ec2_connect_all_regions] resolves the credentials, connects
    once to learn the regions, and returns one connection per region, made
    with those credentials and in the order boto listed the regions. *)
Theorem ec2_connect_all_regions_region_order
    (account_name access_key secret_key : string) (s s1 s2 s3 : state)
    (ec2 : boto.EC2Connection) (regions : list RegionInfo.t)
    (ec2s : list boto.EC2Connection) :
  get_account_api_creds config account_name s =
    (inr {[ "access_key" := access_key; "secret_key" := secret_key ]}, s) ->
  call boto.ConnectEc2 (boto.connect_ec2 access_key secret_key) s =
    (inr ec2, s1) ->
  call boto.GetAllRegions (boto.get_all_regions ec2) s1 = (inr regions, s2) ->
  each_in_order
    (fun region =>
       call boto.RegionConnect
         (boto.region_connect region access_key secret_key))
    regions s2 ec2s s3 ->
  __ec2_connect_all_regions config account_name s = (inr ec2s, s3).
Proof.
  intros Hcreds Hconn Hreg Hl. unfold __ec2_connect_all_regions.
  unfold bind at 1. rewrite Hcreds.
  unfold bind at 1. unfold lift at 1, getitem at 1.
  rewrite lookup_insert_eq.
  unfold bind at 1. unfold lift at 1, getitem at 1.
  rewrite lookup_insert_ne, lookup_singleton_eq by discriminate.
  unfold try_except.
  unfold bind at 1. rewrite Hconn. unfold bind at 1. rewrite Hreg.
  rewrite (for_each_snoc_each_in_order _
             (fun ec2s region =>
                ec2 <- call boto.RegionConnect
                         (boto.region_connect region access_key secret_key) ;;
                ret (ec2s ++ [ec2]))
             _ _ _ _ [] (fun _ _ _ => eq_refl) Hl).
  reflexivity.
Qed.

End Connections.

(** ** More runs against the scripted boto *)

Section MoreRuns.

Lemma account_name_case_is_ignored_witness :
  get_account_api_creds Mock.prod "PROD" (Mock.start Mock.healthy) =
    get_account_api_creds Mock.prod "prod" (Mock.start Mock.healthy) /\
  get_instances_for_account Mock.prod "PROD" (Mock.start Mock.healthy) =
    get_instances_for_account Mock.prod "prod" (Mock.start Mock.healthy) /\
  get_elbs_for_account Mock.prod "PROD" (Mock.start Mock.healthy) =
    get_elbs_for_account Mock.prod "prod" (Mock.start Mock.healthy) /\
  get_security_groups Mock.prod "PROD" (Mock.start Mock.healthy) =
    get_security_groups Mock.prod "prod" (Mock.start Mock.healthy).
Proof.
  apply (account_name_case_is_ignored Mock.prod "PROD" "prod"
           (Mock.start Mock.healthy)).
  vm_compute; reflexivity.
Defined.

Lemma get_account_api_creds_returns_first_entry_witness :
  exists pre account post key secret,
    Mock.prod !! "aws_accounts" = Some (pre ++ account :: post) /\
    Forall (fun a => exists n, a !! "name" = Some n /\ n <> lower "PROD")
      pre /\
    account !! "name" = Some (lower "PROD") /\
    account !! "key" = Some key /\
    account !! "secret" = Some secret /\
    ({[ "access_key" := "K"; "secret_key" := "S" ]} : gmap string string) =
    {[ "access_key" := key; "secret_key" := secret ]}.
Proof.
  apply (get_account_api_creds_returns_first_entry Mock.prod "PROD"
           (Mock.start Mock.healthy)).
  vm_compute; reflexivity.
Defined.

Lemma get_account_api_creds_malformed_entry_witness :
  get_account_api_creds Cases.nameless_first "prod" (Mock.start Mock.healthy)
  = (inl (KeyError "name"), Mock.start Mock.healthy).
Proof.
  apply (get_account_api_creds_malformed_entry Cases.nameless_first []
           [ {[ "name" := "prod"; "key" := "K"; "secret" := "S" ]} ]
           {[ "key" := "K0"; "secret" := "S0" ]} "prod"
           (Mock.start Mock.healthy)).
  - vm_compute; reflexivity.
  - constructor.
  - vm_compute; reflexivity.
Defined.

Lemma unknown_account_fails_before_boto_witness :
  get_instances_for_account Mock.prod "staging" (Mock.start Mock.healthy) =
    (inl (ASEException "Cannot get instances for named account"),
     Mock.start Mock.healthy) /\
  get_elbs_for_account Mock.prod "staging" (Mock.start Mock.healthy) =
    (inl (ASEException "Cannot obtain credentials for specified account"),
     Mock.start Mock.healthy) /\
  get_security_groups Mock.prod "staging" (Mock.start Mock.healthy) =
    (inl (ASEException "Cannot obtain credentials for specified account"),
     Mock.start Mock.healthy) /\
  get_all_instance_events Mock.prod "staging" (Mock.start Mock.healthy) =
    (inl (ASEException "Cannot obtain instance status"),
     Mock.start Mock.healthy).
Proof.
  apply (unknown_account_fails_before_boto Mock.prod
           [ {[ "name" := "prod"; "key" := "K"; "secret" := "S" ]} ]
           "staging" (Mock.start Mock.healthy)).
  - vm_compute; reflexivity.
  - constructor; [|constructor].
    exists "prod". split; [vm_compute; reflexivity | vm_compute; discriminate].
Defined.

Lemma missing_aws_accounts_key_per_account_witness :
  get_account_api_creds ∅ "prod" (Mock.start Mock.healthy) =
    (inl (KeyError "aws_accounts"), Mock.start Mock.healthy) /\
  get_elbs_for_account ∅ "prod" (Mock.start Mock.healthy) =
    (inl (KeyError "aws_accounts"), Mock.start Mock.healthy) /\
  get_security_groups ∅ "prod" (Mock.start Mock.healthy) =
    (inl (KeyError "aws_accounts"), Mock.start Mock.healthy) /\
  get_instances_for_account ∅ "prod" (Mock.start Mock.healthy) =
    (inl (ASEException "Cannot get instances for named account"),
     Mock.start Mock.healthy) /\
  get_all_instance_events ∅ "prod" (Mock.start Mock.healthy) =
    (inl (ASEException "Cannot obtain instance status"),
     Mock.start Mock.healthy).
Proof.
  apply (missing_aws_accounts_key_per_account ∅ "prod"
           (Mock.start Mock.healthy)).
  vm_compute; reflexivity.
Defined.

Lemma no_accounts_no_results_witness :
  get_all_instances Cases.no_accounts (Mock.start Mock.healthy) =
    (inr [], Mock.start Mock.healthy) /\
  get_all_elbs Cases.no_accounts (Mock.start Mock.healthy) =
    (inr [], Mock.start Mock.healthy) /\
  get_all_security_groups Cases.no_accounts (Mock.start Mock.healthy) =
    (inr [], Mock.start Mock.healthy).
Proof.
  apply (no_accounts_no_results Cases.no_accounts (Mock.start Mock.healthy)).
  vm_compute; reflexivity.
Defined.

Lemma only_ASEException_escapes_witness :
  fst (get_all_instance_events Mock.prod "prod"
         (Mock.start Mock.orphan_status)) =
    inl (ASEException "Cannot get instance maintenance events") /\
  (ASEException (SdkExn := string) "Cannot get instance maintenance events" =
     ASEException "Cannot obtain instance status" \/
   ASEException (SdkExn := string) "Cannot get instance maintenance events" =
     ASEException "Cannot get instances for named account" \/
   ASEException (SdkExn := string) "Cannot get instance maintenance events" =
     ASEException "Cannot get instance maintenance events").
Proof.
  assert (fst (get_all_instance_events Mock.prod "prod"
                 (Mock.start Mock.orphan_status)) =
          inl (ASEException "Cannot get instance maintenance events")) as H
    by (vm_compute; reflexivity).
  split; [exact H|].
  apply (only_ASEException_escapes Mock.prod "prod"
           (Mock.start Mock.orphan_status)).
  exact H.
Defined.

Lemma stored_mixed_case_name_breaks_all_accounts_witness :
  fst (get_all_instances Mock.stored_Prod (Mock.start Mock.healthy)) =
    inl (ASEException "Cannot get all instances") /\
  fst (get_all_elbs Mock.stored_Prod (Mock.start Mock.healthy)) =
    inl (ASEException "Cannot get all ELBs") /\
  fst (get_all_security_groups Mock.stored_Prod (Mock.start Mock.healthy)) =
    inl (ASEException "Cannot get all security groups").
Proof.
  apply (stored_mixed_case_name_breaks_all_accounts Mock.stored_Prod
           [ {[ "name" := "Prod"; "key" := "K"; "secret" := "S" ]} ]
           ["Prod"] "Prod" (Mock.start Mock.healthy)).
  - vm_compute; reflexivity.
  - repeat constructor.
  - left. reflexivity.
  - vm_compute. intros [H|[]]. discriminate H.
Defined.

Lemma get_all_instances_stops_at_first_failure_witness :
  exists s2,
    get_all_instances Cases.prod_and_Dev (Mock.start Mock.healthy) =
    (inl (ASEException "Cannot get all instances"), s2).
Proof.
  eexists.
  eapply (get_all_instances_stops_at_first_failure Cases.prod_and_Dev
           [ {[ "name" := "prod"; "key" := "K"; "secret" := "S" ]};
             {[ "name" := "Dev"; "key" := "K2"; "secret" := "S2" ]} ]
           ["prod"] [] "Dev" (Mock.start Mock.healthy) _ _
           [[Mock.web; Mock.db]]
           (ASEException "Cannot get instances for named account")).
  - vm_compute; reflexivity.
  - repeat constructor.
  - eapply runs_cons; [vm_compute; reflexivity | apply runs_nil].
  - vm_compute; reflexivity.
Defined.

Lemma get_all_elbs_and_security_groups_are_concat_witness :
  exists s',
    get_all_elbs Mock.prod_and_dev (Mock.start Mock.healthy) =
    (inr ["lb-us-east-1"; "lb-us-west-2"; "lb-eu-west-1";
          "lb-us-east-1"; "lb-us-west-2"; "lb-eu-west-1"], s').
Proof.
  destruct (get_all_elbs_and_security_groups_are_concat Mock.prod_and_dev
              [ {[ "name" := "prod"; "key" := "K"; "secret" := "S" ]};
                {[ "name" := "dev"; "key" := "K2"; "secret" := "S2" ]} ]
              ["prod"; "dev"] (Mock.start Mock.healthy)) as [He _].
  - vm_compute; reflexivity.
  - repeat constructor.
  - eexists.
    apply (He [ ["lb-us-east-1"; "lb-us-west-2"; "lb-eu-west-1"];
                ["lb-us-east-1"; "lb-us-west-2"; "lb-eu-west-1"] ]).
    eapply runs_cons; [vm_compute; reflexivity|].
    eapply runs_cons; [vm_compute; reflexivity|].
    apply runs_nil.
Defined.

Lemma get_instances_for_account_region_order_witness :
  exists s2,
    get_instances_for_account Mock.prod "prod" (Mock.start Mock.healthy) =
    (inr [Mock.web; Mock.db], s2).
Proof.
  eexists.
  eapply (get_instances_for_account_region_order Mock.prod "prod"
            (Mock.start Mock.healthy) _ _
            ["us-east-1"; "us-west-2"; "eu-west-1"]
            [ [ {| Reservation.instances := [Mock.web] |} ];
              [ {| Reservation.instances := [Mock.db] |} ]; [] ]).
  - vm_compute; reflexivity.
  - eapply each_cons; [vm_compute; reflexivity|].
    eapply each_cons; [vm_compute; reflexivity|].
    eapply each_cons; [vm_compute; reflexivity|].
    apply each_nil.
Defined.

Lemma get_security_groups_region_order_witness :
  exists s2,
    get_security_groups Mock.prod "prod" (Mock.start Mock.healthy) =
    (inr ["sg-us-east-1"; "sg-us-west-2"; "sg-eu-west-1"], s2).
Proof.
  eexists.
  eapply (get_security_groups_region_order Mock.prod "prod"
            (Mock.start Mock.healthy) _ _
            ["us-east-1"; "us-west-2"; "eu-west-1"]
            [ ["sg-us-east-1"]; ["sg-us-west-2"]; ["sg-eu-west-1"] ]).
  - vm_compute; reflexivity.
  - eapply each_cons; [vm_compute; reflexivity|].
    eapply each_cons; [vm_compute; reflexivity|].
    eapply each_cons; [vm_compute; reflexivity|].
    apply each_nil.
Defined.

Lemma get_elbs_for_account_region_order_witness :
  exists s3,
    get_elbs_for_account Mock.prod "prod" (Mock.start Mock.healthy) =
    (inr ["lb-us-east-1"; "lb-us-west-2"; "lb-eu-west-1"], s3).
Proof.
  eexists.
  eapply (get_elbs_for_account_region_order Mock.prod "prod" "K" "S"
            (Mock.start Mock.healthy) _ _ _ _
            [Mock.east; Mock.west; {| RegionInfo.name := "eu-west-1" |}]
            [ ["lb-us-east-1"]; ["lb-us-west-2"]; ["lb-eu-west-1"] ]).
  - vm_compute; reflexivity.
  - vm_compute; reflexivity.
  - vm_compute; reflexivity.
  - eapply each_cons; [vm_compute; reflexivity|].
    eapply each_cons; [vm_compute; reflexivity|].
    eapply each_cons; [vm_compute; reflexivity|].
    apply each_nil.
Defined.

Lemma ec2_connect_all_regions_region_order_witness :
  exists s3,
    __ec2_connect_all_regions Mock.prod "prod" (Mock.start Mock.healthy) =
    (inr ["us-east-1"; "us-west-2"; "eu-west-1"], s3).
Proof.
  eexists.
  eapply (ec2_connect_all_regions_region_order Mock.prod "prod" "K" "S"
            (Mock.start Mock.healthy) _ _ _ _
            [Mock.east; Mock.west; {| RegionInfo.name := "eu-west-1" |}]).
  - vm_compute; reflexivity.
  - vm_compute; reflexivity.
  - vm_compute; reflexivity.
  - eapply each_cons; [vm_compute; reflexivity|].
    eapply each_cons; [vm_compute; reflexivity|].
    eapply each_cons; [vm_compute; reflexivity|].
    apply each_nil.
Defined.

Lemma successful_run_is_one_fan_out_witness :
  exists n,
    calls (snd (get_instances_for_account Mock.prod "prod"
                  (Mock.start Mock.healthy))) =
    calls (Mock.start Mock.healthy) ++ fan_out boto.GetAllReservations n.
Proof.
  apply (proj1 (successful_run_is_one_fan_out Mock.prod "prod"
                  (Mock.start Mock.healthy))
           [Mock.web; Mock.db]).
  vm_compute; reflexivity.
Defined.

Lemma get_all_instance_events_nothing_pending_witness :
  get_all_instance_events Mock.prod "prod" (Mock.start Cases.calm) =
  (inr [],
   snd (get_instances_for_account Mock.prod "prod"
          (snd (__get_all_instance_status Mock.prod "prod"
                  (Mock.start Cases.calm))))).
Proof.
  apply (get_all_instance_events_nothing_pending Mock.prod "prod"
           (Mock.start Cases.calm)
           (snd (__get_all_instance_status Mock.prod "prod"
                   (Mock.start Cases.calm)))
           _ [Cases.no_events] [Mock.web; Mock.db]).
  - vm_compute; reflexivity.
  - vm_compute; reflexivity.
  - repeat constructor.
Defined.

Lemma get_all_instance_events_one_record_per_event_witness :
  length [Mock.expected "i-1" Mock.reboot Mock.web;
          Mock.expected "i-1" Mock.retirement Mock.web] =
    length (pending [Mock.two_events "i-1"]) /\
  Forall2
    (fun p d =>
       MaintenanceEvent.instance_id d = InstanceStatus.id (fst p) /\
       MaintenanceEvent.account d = "prod" /\
       MaintenanceEvent.event_code d = Event.code (snd p) /\
       MaintenanceEvent.time_nb4 d = Event.not_before (snd p) /\
       MaintenanceEvent.time_nafter d = Event.not_after (snd p))
    (pending [Mock.two_events "i-1"])
    [Mock.expected "i-1" Mock.reboot Mock.web;
     Mock.expected "i-1" Mock.retirement Mock.web].
Proof.
  apply (get_all_instance_events_one_record_per_event Mock.prod "prod"
           (Mock.start Mock.healthy)
           (snd (__get_all_instance_status Mock.prod "prod"
                   (Mock.start Mock.healthy)))
           (snd (get_instances_for_account Mock.prod "prod"
                   (snd (__get_all_instance_status Mock.prod "prod"
                           (Mock.start Mock.healthy)))))
           [Mock.two_events "i-1"] [Mock.web; Mock.db]).
  - vm_compute; reflexivity.
  - vm_compute; reflexivity.
  - vm_compute; reflexivity.
Defined.

Lemma get_all_instance_events_returns_iff_all_matched_witness :
  (exists recs,
     get_all_instance_events Mock.prod "prod"
       (Mock.start Mock.orphan_status) =
     (inr recs,
      snd (get_instances_for_account Mock.prod "prod"
             (snd (__get_all_instance_status Mock.prod "prod"
                     (Mock.start Mock.orphan_status)))))) <->
  all_matched [Mock.web; Mock.db] [Mock.two_events "i-9"].
Proof.
  apply (get_all_instance_events_returns_iff_all_matched Mock.prod "prod"
           (Mock.start Mock.orphan_status)
           (snd (__get_all_instance_status Mock.prod "prod"
                   (Mock.start Mock.orphan_status)))).
  - vm_compute; reflexivity.
  - vm_compute; reflexivity.
Defined.

Lemma get_all_instance_events_fans_out_twice_witness :
  exists n1 n2,
    calls (snd (get_all_instance_events Mock.prod "prod"
                  (Mock.start Mock.healthy))) =
    calls (Mock.start Mock.healthy)
    ++ fan_out boto.GetAllInstanceStatus n1
    ++ fan_out boto.GetAllReservations n2.
Proof.
  apply (get_all_instance_events_fans_out_twice Mock.prod "prod"
           (Mock.start Mock.healthy) _
           [Mock.expected "i-1" Mock.reboot Mock.web;
            Mock.expected "i-1" Mock.retirement Mock.web]).
  vm_compute; reflexivity.
Defined.

Lemma ASEException_str_quotes_message_witness :
  __str__ "Cannot get instances for named account" =
  "'Cannot get instances for named account'".
Proof.
  apply (ASEException_str_quotes_message
           "Cannot get instances for named account").
  vm_compute; reflexivity.
Defined.

End MoreRuns.
